(** * Chat client (App.jsx): a shallow embedding of the component's
    handlers and effects, and the properties of its message view, typing
    debounce, connection guard and send path.

    The React component [App] is modelled as a state record (its [useState]
    cells and [useRef] boxes, the values handed out by the [useSocket] hook,
    and the part of the browser the handlers talk to: the clock and the
    pending [setTimeout] timers) together with one function per handler,
    callback and effect.  Calls that leave the component ([connect],
    [sendMessage], [setTyping], [addDoc], [onSnapshot], ...) are recorded,
    stamped with the time of the call, in [trace]; [console.error] output
    goes to [console]. *)

From Stdlib Require Import NArith Lia.
From stdpp Require Import base option list strings sorting pretty.

Local Open Scope string_scope.
Local Open Scope list_scope.

(** ** Data model *)

(** A chat message as the render loop reads it.  A field the JavaScript
    object may lack is an [option]; the two flags are only tested for
    truthiness, so an absent flag is [false].  Timestamps are the ISO-8601
    strings produced by [toISOString]. *)
Record Message := {
  msg_id : option string;
  msg_sender : option string;
  msg_text : option string;
  msg_timestamp : option string;
  msg_system : bool;
  msg_isPrivate : bool
}.

(** A Firestore document of a snapshot: [doc.id] and [doc.data()]. *)
Record Doc := {
  doc_id : string;
  doc_data : Message
}.

(** [{ ...doc.data(), id: doc.id }] *)
Definition withDocId (d : Doc) : Message :=
  {| msg_id := Some (doc_id d);
     msg_sender := msg_sender (doc_data d);
     msg_text := msg_text (doc_data d);
     msg_timestamp := msg_timestamp (doc_data d);
     msg_system := msg_system (doc_data d);
     msg_isPrivate := msg_isPrivate (doc_data d) |}.

(** [query(collection(db, path), orderBy(field, 'desc'), limit(n))] *)
Record Query := {
  q_path : string;
  q_orderByDesc : string;
  q_limit : nat
}.

(** The calls the component makes on its collaborators. *)
Inductive Cmd :=
| OnAuthStateChanged
| SignInAnonymously
| SignInWithCustomToken (token : string)
| OnSnapshot (q : Query)
| Unsubscribe
| AddDoc (path : string) (msg : Message)
| Connect (name : string)
| SendMessage (text : string)
| SetTyping (isTyping : bool).

(** A pending [setTimeout]: the handle it returned and the time it is due.
    The component has a single [setTimeout] site, so every timer runs the
    same callback ([typingTimeoutCallback] below). *)
Record Timer := {
  timer_id : nat;
  timer_due : N
}.

(** Modelled from the spec: the connection state of the live transport
    behind the [useSocket] hook (socket/socket.js is not part of the
    sources), following the lifecycle
    Unauthenticated/AwaitingUsername -> Connecting -> Connected,
    Connected -> Disconnected on a drop, and back to Connecting by the
    transport's own retry.  [Unstarted] is the transport before
    [connect(username)] was ever called; [isConnected] is [true] exactly
    in [Connected]. *)
Inductive ConnectionState := Unstarted | Connecting | Connected | Disconnected.

Inductive TransportEvent := TransportUp | TransportDown | TransportRetry.

Global Instance Message_eq_dec : EqDecision Message.
Proof. solve_decision. Defined.
Global Instance Doc_eq_dec : EqDecision Doc.
Proof. solve_decision. Defined.
Global Instance Query_eq_dec : EqDecision Query.
Proof. solve_decision. Defined.
Global Instance Cmd_eq_dec : EqDecision Cmd.
Proof. solve_decision. Defined.
Global Instance ConnectionState_eq_dec : EqDecision ConnectionState.
Proof. solve_decision. Defined.

(** The component state.
    - [db] ... [hasConnectedRef]: the [useState] cells and [useRef] boxes
      of [App] ([db] is [true] once [setDb(dbInstance)] ran, [false] for
      [null]); [listenerDeps] is the dependency array React remembers for
      the Firestore listener effect.
    - [liveMessages], [connection]: what [useSocket] hands out.
    - [clock], [timers], [nextTimerId]: the browser's timer queue.
    - [subscribed], [authListening], [pendingAppends]: which callbacks the
      stores may still call ([onSnapshot] listener attached, auth observer
      attached, [addDoc] promises not yet settled). *)
Record State := {
  db : bool;
  userId : option string;
  isAuthReady : bool;
  username : string;
  input : string;
  persistentMessages : list Message;
  typingTimeoutRef : option nat;
  hasConnectedRef : bool;
  listenerDeps : option (bool * bool);
  liveMessages : list Message;
  connection : ConnectionState;
  clock : N;
  timers : list Timer;
  nextTimerId : nat;
  subscribed : bool;
  authListening : bool;
  pendingAppends : nat;
  trace : list (N * Cmd);
  console : list string
}.

(** Field updates. *)
Definition set_db (v : bool) (st : State) : State :=
  {| db := v; userId := userId st; isAuthReady := isAuthReady st;
     username := username st; input := input st;
     persistentMessages := persistentMessages st;
     typingTimeoutRef := typingTimeoutRef st;
     hasConnectedRef := hasConnectedRef st; listenerDeps := listenerDeps st;
     liveMessages := liveMessages st; connection := connection st;
     clock := clock st; timers := timers st; nextTimerId := nextTimerId st;
     subscribed := subscribed st; authListening := authListening st;
     pendingAppends := pendingAppends st; trace := trace st;
     console := console st |}.
Definition set_userId (v : option string) (st : State) : State :=
  {| db := db st; userId := v; isAuthReady := isAuthReady st;
     username := username st; input := input st;
     persistentMessages := persistentMessages st;
     typingTimeoutRef := typingTimeoutRef st;
     hasConnectedRef := hasConnectedRef st; listenerDeps := listenerDeps st;
     liveMessages := liveMessages st; connection := connection st;
     clock := clock st; timers := timers st; nextTimerId := nextTimerId st;
     subscribed := subscribed st; authListening := authListening st;
     pendingAppends := pendingAppends st; trace := trace st;
     console := console st |}.
Definition set_isAuthReady (v : bool) (st : State) : State :=
  {| db := db st; userId := userId st; isAuthReady := v;
     username := username st; input := input st;
     persistentMessages := persistentMessages st;
     typingTimeoutRef := typingTimeoutRef st;
     hasConnectedRef := hasConnectedRef st; listenerDeps := listenerDeps st;
     liveMessages := liveMessages st; connection := connection st;
     clock := clock st; timers := timers st; nextTimerId := nextTimerId st;
     subscribed := subscribed st; authListening := authListening st;
     pendingAppends := pendingAppends st; trace := trace st;
     console := console st |}.
Definition set_username (v : string) (st : State) : State :=
  {| db := db st; userId := userId st; isAuthReady := isAuthReady st;
     username := v; input := input st;
     persistentMessages := persistentMessages st;
     typingTimeoutRef := typingTimeoutRef st;
     hasConnectedRef := hasConnectedRef st; listenerDeps := listenerDeps st;
     liveMessages := liveMessages st; connection := connection st;
     clock := clock st; timers := timers st; nextTimerId := nextTimerId st;
     subscribed := subscribed st; authListening := authListening st;
     pendingAppends := pendingAppends st; trace := trace st;
     console := console st |}.
Definition set_input (v : string) (st : State) : State :=
  {| db := db st; userId := userId st; isAuthReady := isAuthReady st;
     username := username st; input := v;
     persistentMessages := persistentMessages st;
     typingTimeoutRef := typingTimeoutRef st;
     hasConnectedRef := hasConnectedRef st; listenerDeps := listenerDeps st;
     liveMessages := liveMessages st; connection := connection st;
     clock := clock st; timers := timers st; nextTimerId := nextTimerId st;
     subscribed := subscribed st; authListening := authListening st;
     pendingAppends := pendingAppends st; trace := trace st;
     console := console st |}.
Definition set_persistentMessages (v : list Message) (st : State) : State :=
  {| db := db st; userId := userId st; isAuthReady := isAuthReady st;
     username := username st; input := input st; persistentMessages := v;
     typingTimeoutRef := typingTimeoutRef st;
     hasConnectedRef := hasConnectedRef st; listenerDeps := listenerDeps st;
     liveMessages := liveMessages st; connection := connection st;
     clock := clock st; timers := timers st; nextTimerId := nextTimerId st;
     subscribed := subscribed st; authListening := authListening st;
     pendingAppends := pendingAppends st; trace := trace st;
     console := console st |}.
Definition set_typingTimeoutRef (v : option nat) (st : State) : State :=
  {| db := db st; userId := userId st; isAuthReady := isAuthReady st;
     username := username st; input := input st;
     persistentMessages := persistentMessages st; typingTimeoutRef := v;
     hasConnectedRef := hasConnectedRef st; listenerDeps := listenerDeps st;
     liveMessages := liveMessages st; connection := connection st;
     clock := clock st; timers := timers st; nextTimerId := nextTimerId st;
     subscribed := subscribed st; authListening := authListening st;
     pendingAppends := pendingAppends st; trace := trace st;
     console := console st |}.
Definition set_hasConnectedRef (v : bool) (st : State) : State :=
  {| db := db st; userId := userId st; isAuthReady := isAuthReady st;
     username := username st; input := input st;
     persistentMessages := persistentMessages st;
     typingTimeoutRef := typingTimeoutRef st; hasConnectedRef := v;
     listenerDeps := listenerDeps st; liveMessages := liveMessages st;
     connection := connection st; clock := clock st; timers := timers st;
     nextTimerId := nextTimerId st; subscribed := subscribed st;
     authListening := authListening st; pendingAppends := pendingAppends st;
     trace := trace st; console := console st |}.
Definition set_listenerDeps (v : option (bool * bool)) (st : State) : State :=
  {| db := db st; userId := userId st; isAuthReady := isAuthReady st;
     username := username st; input := input st;
     persistentMessages := persistentMessages st;
     typingTimeoutRef := typingTimeoutRef st;
     hasConnectedRef := hasConnectedRef st; listenerDeps := v;
     liveMessages := liveMessages st; connection := connection st;
     clock := clock st; timers := timers st; nextTimerId := nextTimerId st;
     subscribed := subscribed st; authListening := authListening st;
     pendingAppends := pendingAppends st; trace := trace st;
     console := console st |}.
Definition set_liveMessages (v : list Message) (st : State) : State :=
  {| db := db st; userId := userId st; isAuthReady := isAuthReady st;
     username := username st; input := input st;
     persistentMessages := persistentMessages st;
     typingTimeoutRef := typingTimeoutRef st;
     hasConnectedRef := hasConnectedRef st; listenerDeps := listenerDeps st;
     liveMessages := v; connection := connection st; clock := clock st;
     timers := timers st; nextTimerId := nextTimerId st;
     subscribed := subscribed st; authListening := authListening st;
     pendingAppends := pendingAppends st; trace := trace st;
     console := console st |}.
Definition set_connection (v : ConnectionState) (st : State) : State :=
  {| db := db st; userId := userId st; isAuthReady := isAuthReady st;
     username := username st; input := input st;
     persistentMessages := persistentMessages st;
     typingTimeoutRef := typingTimeoutRef st;
     hasConnectedRef := hasConnectedRef st; listenerDeps := listenerDeps st;
     liveMessages := liveMessages st; connection := v; clock := clock st;
     timers := timers st; nextTimerId := nextTimerId st;
     subscribed := subscribed st; authListening := authListening st;
     pendingAppends := pendingAppends st; trace := trace st;
     console := console st |}.
Definition set_clock (v : N) (st : State) : State :=
  {| db := db st; userId := userId st; isAuthReady := isAuthReady st;
     username := username st; input := input st;
     persistentMessages := persistentMessages st;
     typingTimeoutRef := typingTimeoutRef st;
     hasConnectedRef := hasConnectedRef st; listenerDeps := listenerDeps st;
     liveMessages := liveMessages st; connection := connection st;
     clock := v; timers := timers st; nextTimerId := nextTimerId st;
     subscribed := subscribed st; authListening := authListening st;
     pendingAppends := pendingAppends st; trace := trace st;
     console := console st |}.
Definition set_timers (v : list Timer) (st : State) : State :=
  {| db := db st; userId := userId st; isAuthReady := isAuthReady st;
     username := username st; input := input st;
     persistentMessages := persistentMessages st;
     typingTimeoutRef := typingTimeoutRef st;
     hasConnectedRef := hasConnectedRef st; listenerDeps := listenerDeps st;
     liveMessages := liveMessages st; connection := connection st;
     clock := clock st; timers := v; nextTimerId := nextTimerId st;
     subscribed := subscribed st; authListening := authListening st;
     pendingAppends := pendingAppends st; trace := trace st;
     console := console st |}.
Definition set_nextTimerId (v : nat) (st : State) : State :=
  {| db := db st; userId := userId st; isAuthReady := isAuthReady st;
     username := username st; input := input st;
     persistentMessages := persistentMessages st;
     typingTimeoutRef := typingTimeoutRef st;
     hasConnectedRef := hasConnectedRef st; listenerDeps := listenerDeps st;
     liveMessages := liveMessages st; connection := connection st;
     clock := clock st; timers := timers st; nextTimerId := v;
     subscribed := subscribed st; authListening := authListening st;
     pendingAppends := pendingAppends st; trace := trace st;
     console := console st |}.
Definition set_subscribed (v : bool) (st : State) : State :=
  {| db := db st; userId := userId st; isAuthReady := isAuthReady st;
     username := username st; input := input st;
     persistentMessages := persistentMessages st;
     typingTimeoutRef := typingTimeoutRef st;
     hasConnectedRef := hasConnectedRef st; listenerDeps := listenerDeps st;
     liveMessages := liveMessages st; connection := connection st;
     clock := clock st; timers := timers st; nextTimerId := nextTimerId st;
     subscribed := v; authListening := authListening st;
     pendingAppends := pendingAppends st; trace := trace st;
     console := console st |}.
Definition set_authListening (v : bool) (st : State) : State :=
  {| db := db st; userId := userId st; isAuthReady := isAuthReady st;
     username := username st; input := input st;
     persistentMessages := persistentMessages st;
     typingTimeoutRef := typingTimeoutRef st;
     hasConnectedRef := hasConnectedRef st; listenerDeps := listenerDeps st;
     liveMessages := liveMessages st; connection := connection st;
     clock := clock st; timers := timers st; nextTimerId := nextTimerId st;
     subscribed := subscribed st; authListening := v;
     pendingAppends := pendingAppends st; trace := trace st;
     console := console st |}.
Definition set_pendingAppends (v : nat) (st : State) : State :=
  {| db := db st; userId := userId st; isAuthReady := isAuthReady st;
     username := username st; input := input st;
     persistentMessages := persistentMessages st;
     typingTimeoutRef := typingTimeoutRef st;
     hasConnectedRef := hasConnectedRef st; listenerDeps := listenerDeps st;
     liveMessages := liveMessages st; connection := connection st;
     clock := clock st; timers := timers st; nextTimerId := nextTimerId st;
     subscribed := subscribed st; authListening := authListening st;
     pendingAppends := v; trace := trace st; console := console st |}.
Definition set_trace (v : list (N * Cmd)) (st : State) : State :=
  {| db := db st; userId := userId st; isAuthReady := isAuthReady st;
     username := username st; input := input st;
     persistentMessages := persistentMessages st;
     typingTimeoutRef := typingTimeoutRef st;
     hasConnectedRef := hasConnectedRef st; listenerDeps := listenerDeps st;
     liveMessages := liveMessages st; connection := connection st;
     clock := clock st; timers := timers st; nextTimerId := nextTimerId st;
     subscribed := subscribed st; authListening := authListening st;
     pendingAppends := pendingAppends st; trace := v;
     console := console st |}.
Definition set_console (v : list string) (st : State) : State :=
  {| db := db st; userId := userId st; isAuthReady := isAuthReady st;
     username := username st; input := input st;
     persistentMessages := persistentMessages st;
     typingTimeoutRef := typingTimeoutRef st;
     hasConnectedRef := hasConnectedRef st; listenerDeps := listenerDeps st;
     liveMessages := liveMessages st; connection := connection st;
     clock := clock st; timers := timers st; nextTimerId := nextTimerId st;
     subscribed := subscribed st; authListening := authListening st;
     pendingAppends := pendingAppends st; trace := trace st; console := v |}.

Arguments set_db _ _ /.
Arguments set_userId _ _ /.
Arguments set_isAuthReady _ _ /.
Arguments set_username _ _ /.
Arguments set_input _ _ /.
Arguments set_persistentMessages _ _ /.
Arguments set_typingTimeoutRef _ _ /.
Arguments set_hasConnectedRef _ _ /.
Arguments set_listenerDeps _ _ /.
Arguments set_liveMessages _ _ /.
Arguments set_connection _ _ /.
Arguments set_clock _ _ /.
Arguments set_timers _ _ /.
Arguments set_nextTimerId _ _ /.
Arguments set_subscribed _ _ /.
Arguments set_authListening _ _ /.
Arguments set_pendingAppends _ _ /.
Arguments set_trace _ _ /.
Arguments set_console _ _ /.

Definition isConnected (st : State) : bool :=
  bool_decide (connection st = Connected).

(** Record a call with the time it is made. *)
Definition emit (c : Cmd) (st : State) : State :=
  set_trace (trace st ++ [(clock st, c)]) st.

(** [console.error(msg, ...)] and [console.warn(msg)]: the console is not
    part of what the component renders. *)
Definition console_error (msg : string) (st : State) : State :=
  set_console (console st ++ [msg]) st.

Definition console_warn (msg : string) (st : State) : State :=
  set_console (console st ++ [msg]) st.

(** The state at first render: the [useState]/[useRef] initial values, no
    timer, nothing subscribed, nothing called yet.  Timer handles start at
    1: browsers hand out positive handles, which are truthy. *)
Definition initial : State :=
  {| db := false; userId := None; isAuthReady := false; username := "";
     input := ""; persistentMessages := []; typingTimeoutRef := None;
     hasConnectedRef := false; listenerDeps := None; liveMessages := [];
     connection := Unstarted; clock := 0%N; timers := [];
     nextTimerId := 1; subscribed := false; authListening := false;
     pendingAppends := 0; trace := []; console := [] |}.

(** ** Strings *)

(** A JavaScript string is held as the bytes of its UTF-8 encoding.  In
    UTF-8 no character's encoding starts inside another's, so the bytes
    of a white-space character at the head or the end of the byte string
    are that character at the head or the end of the text. *)

(** The UTF-8 bytes of a code point of the Basic Multilingual Plane. *)
Definition utf8 (cp : N) : list N :=
  if (cp <? 128)%N then [cp]
  else if (cp <? 2048)%N then [192 + cp / 64; 128 + cp mod 64]%N
  else [224 + cp / 4096; 128 + (cp / 64) mod 64; 128 + cp mod 64]%N.

Definition encode (cp : N) : string :=
  String.string_of_list_ascii (Ascii.ascii_of_N <$> utf8 cp).

(** The code points [String.prototype.trim] strips, ECMAScript's WhiteSpace
    and LineTerminator: TAB, LF, VT, FF, CR, SPACE, NO-BREAK SPACE, OGHAM
    SPACE MARK, EN QUAD .. HAIR SPACE (U+2000 .. U+200A), LINE SEPARATOR,
    PARAGRAPH SEPARATOR, NARROW NO-BREAK SPACE, MEDIUM MATHEMATICAL SPACE,
    IDEOGRAPHIC SPACE and ZERO WIDTH NO-BREAK SPACE (U+FEFF). *)
Definition whiteSpace : list N :=
  [9; 10; 11; 12; 13; 32; 160; 5760;
   8192; 8193; 8194; 8195; 8196; 8197; 8198; 8199; 8200; 8201; 8202;
   8232; 8233; 8239; 8287; 12288; 65279]%N.

(** The bytes [cs], read forwards (or backwards, when the string is
    scanned from its end), encode a white-space character. *)
Definition isSpace (back : bool) (cs : list Ascii.ascii) : bool :=
  let bytes := Ascii.N_of_ascii <$> cs in
  bool_decide ((if back then reverse bytes else bytes) ∈ utf8 <$> whiteSpace).

(** Drop the white-space characters at the head of the string; each takes
    one, two or three bytes.  With [back] the string is the text read
    from its end. *)
Fixpoint strip (back : bool) (s : string) : string :=
  match s with
  | String c1 s1 =>
      if isSpace back [c1] then strip back s1
      else match s1 with
           | String c2 s2 =>
               if isSpace back [c1; c2] then strip back s2
               else match s2 with
                    | String c3 s3 =>
                        if isSpace back [c1; c2; c3] then strip back s3
                        else s
                    | EmptyString => s
                    end
           | EmptyString => s
           end
  | EmptyString => s
  end.

Definition trimStart (s : string) : string := strip false s.

Definition trimEnd (s : string) : string :=
  String.rev (strip true (String.rev s)).

(** [String.prototype.trim] *)
Definition trim (s : string) : string := trimEnd (trimStart s).

(** JavaScript truthiness of a string: [!s] is [true] exactly for [""]. *)
Definition truthy (s : string) : bool := negb (bool_decide (s = "")).

(** ** Timers *)

(** [setTimeout(cb, delay)]: a fresh handle, due [delay] ms from now. *)
Definition setTimeout (delay : N) (st : State) : nat * State :=
  let h := nextTimerId st in
  (h, set_nextTimerId (S h)
        (set_timers (timers st ++
           [{| timer_id := h; timer_due := (clock st + delay)%N |}]) st)).

(** [clearTimeout(handle)]; [clearTimeout(null)] does nothing. *)
Definition clearTimeout (handle : option nat) (st : State) : State :=
  match handle with
  | Some h =>
      set_timers (filter (λ t, timer_id t ≠ h) (timers st)) st
  | None => st
  end.

(** ** The component *)

Section App.

(** The module-level constants of App.jsx: [appId], [IS_DUMMY_KEY] and
    [initialAuthToken] come from the hosting page; [toISOString] stands for
    [new Date().toISOString()] at a given clock reading. *)
Variable appId : string.
Variable IS_DUMMY_KEY : bool.
Variable initialAuthToken : option string.
Variable toISOString : N → string.

Set Default Proof Using "Type".

Definition chatPath : string :=
  "/artifacts/" +:+ appId +:+ "/public/data/global_chat_messages".

(** [query(collection(db, chatPath), orderBy('timestamp', 'desc'), limit(50))] *)
Definition chatQuery : Query :=
  {| q_path := chatPath; q_orderByDesc := "timestamp"; q_limit := 50 |}.

(** *** The merged view *)

(** [const allMessages = [...persistentMessages, ...liveMessages]] *)
Definition allMessages (st : State) : list Message :=
  persistentMessages st ++ liveMessages st.

(** The React key of a rendered message, [msg.id || index]. *)
Inductive Key := KeyId (s : string) | KeyIndex (i : nat).

Definition displayKey (msg : Message) (index : nat) : Key :=
  match msg_id msg with
  | Some s => if truthy s then KeyId s else KeyIndex index
  | None => KeyIndex index
  end.

(** The keys of [allMessages.map((msg, index) => ...)], in render order. *)
Definition keys (st : State) : list Key :=
  imap (λ index msg, displayKey msg index) (allMessages st).

(** *** The hook's commands *)

(** Modelled from the spec: [connect(username)] of the [useSocket] hook
    (socket/socket.js is not part of the sources) asks the transport for a
    connection, which takes it from [Unstarted] to [Connecting]. *)
Definition connect (name : string) (st : State) : State :=
  set_connection
    (match connection st with Unstarted => Connecting | c => c end)
    (emit (Connect name) st).

(** Modelled from the spec: [sendMessage(text)] and [setTyping(flag)] of
    the [useSocket] hook hand a command to the live transport and leave
    the component's state alone. *)
Definition sendMessage (text : string) (st : State) : State :=
  emit (SendMessage text) st.

Definition setTyping (flag : bool) (st : State) : State :=
  emit (SetTyping flag) st.

(** Modelled from the spec: a live message delivered by the transport is
    appended to the hook's [messages] ([onLiveMessage]). *)
Definition onLiveMessage (m : Message) (st : State) : State :=
  set_liveMessages (liveMessages st ++ [m]) st.

(** Modelled from the spec: the transport's connection changes. *)
Definition onTransport (e : TransportEvent) (st : State) : State :=
  match e, connection st with
  | TransportUp, Connecting => set_connection Connected st
  | TransportDown, Connected => set_connection Disconnected st
  | TransportRetry, Disconnected => set_connection Connecting st
  | _, _ => st
  end.

(** *** Firebase initialisation and auth (first effect) *)

(** [initOk = false] is an exception thrown by [initializeApp], [getAuth]
    or [getFirestore], caught by the effect's [try]; [rnd] is the random
    suffix of the local-development user id. *)
Definition firebaseInitEffect (initOk : bool) (rnd : string) (st : State)
  : State :=
  if initOk then
    let st := set_db true st in
    if IS_DUMMY_KEY then
      let st := console_warn
        "Running with DUMMY_API_KEY. Firestore features will be disabled/fail, but Socket.io chat will function." st in
      set_isAuthReady true (set_userId (Some ("local-dev-user-" +:+ rnd)) st)
    else
      let st := emit OnAuthStateChanged (set_authListening true st) in
      match initialAuthToken with
      | Some token =>
          if truthy token then emit (SignInWithCustomToken token) st
          else emit SignInAnonymously st
      | None => emit SignInAnonymously st
      end
  else console_error "Firebase initialization failed:" st.

(** [if (initialAuthToken)] *)
Definition tokenGiven : bool :=
  match initialAuthToken with
  | Some token => truthy token
  | None => false
  end.

(** The [catch] of [signInWithCustomToken(...)]: fall back to anonymous
    sign-in. *)
Definition tokenSignInRejected (st : State) : State :=
  emit SignInAnonymously st.

(** The [onAuthStateChanged] observer. *)
Definition authStateCallback (user : option string) (st : State) : State :=
  match user with
  | Some uid => set_isAuthReady true (set_userId (Some uid) st)
  | None => emit SignInAnonymously st
  end.

(** *** Firestore listener (second effect) *)

(** The [next] callback of [onSnapshot]:
    [snapshot.docs.map(doc => ({...doc.data(), id: doc.id})).reverse()]. *)
Definition snapshotCallback (docs : list Doc) (st : State) : State :=
  set_persistentMessages (reverse (withDocId <$> docs)) st.

(** The [error] callback of [onSnapshot]. *)
Definition snapshotErrorCallback (st : State) : State :=
  console_error "Error fetching messages from Firestore:" st.

(** The effect with dependencies [[isAuthReady, db, appId]]: when a
    dependency changed since the last run, the previous run's cleanup
    ([unsubscribe()]) runs first, then the body. *)
Definition firestoreListenerEffect (st : State) : State :=
  let deps := (isAuthReady st, db st) in
  if bool_decide (listenerDeps st = Some deps) then st
  else
    let st := if subscribed st then emit Unsubscribe (set_subscribed false st)
              else st in
    let st := set_listenerDeps (Some deps) st in
    if negb (isAuthReady st) || negb (db st) then st
    else emit (OnSnapshot chatQuery) (set_subscribed true st).

(** *** Socket connection trigger (third effect) *)

(** The body is guarded by [hasConnectedRef]; [connect] in the dependency
    array is the hook's function, whose identity may change on every
    render, so the body may run after every render. *)
Definition socketConnectEffect (st : State) : State :=
  if isAuthReady st && truthy (username st) && negb (hasConnectedRef st)
  then connect (username st) (set_hasConnectedRef true st)
  else st.

(** The effects React runs after a render, in declaration order. *)
Definition runEffects (st : State) : State :=
  socketConnectEffect (firestoreListenerEffect st).

(** *** Sending *)

(** [sendMessageToDb]: the [addDoc] call; its promise settles later
    ([addDocSettled]). *)
Definition sendMessageToDb (msg : Message) (st : State) : State :=
  if negb (db st) then st
  else set_pendingAppends (S (pendingAppends st)) (emit (AddDoc chatPath msg) st).

(** The continuation of [await addDoc(...)]: nothing on success, the
    [catch] block on rejection. *)
Definition addDocSettled (ok : bool) (st : State) : State :=
  if ok then st
  else if IS_DUMMY_KEY then st
  else console_error "Error adding document to Firestore: " st.

Definition handleSend (st : State) : State :=
  let text := trim (input st) in
  if negb (truthy text) || negb (truthy (username st)) then st
  else
    let st := sendMessage text st in
    let st := sendMessageToDb
      {| msg_id := None; msg_sender := Some (username st);
         msg_text := Some text;
         msg_timestamp := Some (toISOString (clock st));
         msg_system := false; msg_isPrivate := false |} st in
    let st := setTyping false st in
    let st := clearTimeout (typingTimeoutRef st) st in
    let st := set_typingTimeoutRef None st in
    set_input "" st.

(** *** Typing *)

(** [!typingTimeoutRef.current]: [null] and the handle 0 are falsy. *)
Definition noTimerHandle (ref : option nat) : bool :=
  match ref with
  | None => true
  | Some h => bool_decide (h = 0)
  end.

(** The function passed to [setTimeout] in [handleInputChange]. *)
Definition typingTimeoutCallback (st : State) : State :=
  set_typingTimeoutRef None (setTyping false st).

Definition handleInputChange (newText : string) (st : State) : State :=
  let st := set_input newText st in
  let st := if bool_decide (0 < String.length newText)
               && noTimerHandle (typingTimeoutRef st)
            then setTyping true st else st in
  let st := clearTimeout (typingTimeoutRef st) st in
  let '(h, st) := setTimeout 2000 st in
  set_typingTimeoutRef (Some h) st.

(** The username prompt's [onSubmit]. *)
Definition usernameSubmit (value : string) (st : State) : State :=
  let name := trim value in
  if truthy name then set_username name st else st.

(** *** Time *)

Definition dueBy (t : N) (tm : Timer) : bool := (timer_due tm <=? t)%N.

(** The browser runs the callbacks of the timers in [due], each at its
    due time. *)
Definition fire (st : State) (due : list Timer) : State :=
  foldl (λ s tm, typingTimeoutCallback (set_clock (timer_due tm) s)) st due.

(** [dt] ms pass: the timers due by then fire, in the order they were set
    (all are set with the same delay, so this is the order of their due
    times). *)
Definition advance (dt : N) (st : State) : State :=
  let target := (clock st + dt)%N in
  let due := filter (λ tm, dueBy target tm = true) (timers st) in
  let st := set_timers (filter (λ tm, dueBy target tm ≠ true) (timers st)) st in
  set_clock target (fire st due).

(** *** The durable store *)

Definition hasTimestamp (d : Doc) : Prop := is_Some (msg_timestamp (doc_data d)).

Definition timestampOf (d : Doc) : string :=
  default "" (msg_timestamp (doc_data d)).

(** [orderBy('timestamp', 'desc')]: the newer document first. *)
Definition newerFirst (d1 d2 : Doc) : Prop :=
  String.le (timestampOf d2) (timestampOf d1).

(** What the store answers to a query ordered by timestamp, descending:
    the documents that have the field, newest first, at most [q_limit]. *)
Definition runQuery (q : Query) (collection : list Doc) : list Doc :=
  take (q_limit q) (merge_sort newerFirst (filter hasTimestamp collection)).

(** *** Events *)

Inductive Event :=
| EMount (initOk : bool) (rnd : string)
| EAuthStateChanged (user : option string)
| EUsernameSubmit (value : string)
| EInputChange (newText : string)
| ESubmit
| EAdvance (dt : N)
| ESnapshot (collection : list Doc)
| ESnapshotError
| EAddDocSettled (ok : bool)
| ELiveMessage (m : Message)
| ETransport (e : TransportEvent)
| ETokenSignInRejected.

(** The handler an event reaches.  The stores call back only what was
    registered; the username prompt is rendered while [username] is empty
    and the chat form afterwards, with its input and button disabled
    unless [isConnected] (the button is also disabled while the trimmed
    input is empty, where [handleSend] returns at once anyway). *)
Definition deliver (e : Event) (st : State) : State :=
  match e with
  | EMount initOk rnd => firebaseInitEffect initOk rnd st
  | EAuthStateChanged user =>
      if authListening st then authStateCallback user st else st
  | EUsernameSubmit value =>
      if truthy (username st) then st else usernameSubmit value st
  | EInputChange newText =>
      if truthy (username st) && isConnected st
      then handleInputChange newText st else st
  | ESubmit =>
      if truthy (username st) && isConnected st then handleSend st else st
  | EAdvance dt => advance dt st
  | ESnapshot collection =>
      if subscribed st then snapshotCallback (runQuery chatQuery collection) st
      else st
  | ESnapshotError =>
      if subscribed st then snapshotErrorCallback st else st
  | EAddDocSettled ok =>
      match pendingAppends st with
      | S n => addDocSettled ok (set_pendingAppends n st)
      | O => st
      end
  | ELiveMessage m => onLiveMessage m st
  | ETransport e => onTransport e st
  | ETokenSignInRejected =>
      if authListening st && tokenGiven then tokenSignInRejected st else st
  end.

(** One event: its handler runs to completion, then React re-renders and
    runs the effects. *)
Definition step (e : Event) (st : State) : State := runEffects (deliver e st).

Definition run (es : list Event) (st : State) : State := foldl (flip step) st es.


(** ** Vocabulary of the properties

    The invariants, projections and event classes the lemmas and theorems
    below are stated with. *)

(** At most one inactivity timer is pending, and [typingTimeoutRef] holds
    its handle exactly while it is. *)
Definition timerInv (st : State) : Prop :=
  0 < nextTimerId st ∧
  match typingTimeoutRef st with
  | None => timers st = []
  | Some h => timer_id <$> timers st = [h] ∧ 0 < h
  end.

Definition idle (st : State) : Prop :=
  typingTimeoutRef st = None ∧ timers st = [] ∧ 0 < nextTimerId st.


(** The "start typing" / "stop typing" emissions of a trace, with their
    times. *)
Definition typingEmissions (tr : list (N * Cmd)) : list (N * bool) :=
  omap (λ tc, match tc.2 with
              | SetTyping flag => Some (tc.1, flag)
              | _ => None
              end) tr.

Definition starts (tr : list (N * Cmd)) : nat :=
  length (filter (λ e, e.2 = true) (typingEmissions tr)).

Definition stops (tr : list (N * Cmd)) : nat :=
  length (filter (λ e, e.2 = false) (typingEmissions tr)).

Definition reachable (st : State) : Prop := ∃ es, st = run es initial.

(** The commands that go to the identity provider; every other command is
    a durable-store or live-transport operation. *)
Definition isAuthCmd (c : Cmd) : bool :=
  match c with
  | OnAuthStateChanged | SignInAnonymously | SignInWithCustomToken _ => true
  | _ => false
  end.

Definition isDurableOp (c : Cmd) : bool :=
  match c with
  | OnSnapshot _ | Unsubscribe | AddDoc _ _ => true
  | _ => false
  end.

Definition isConnect (c : Cmd) : bool :=
  match c with Connect _ => true | _ => false end.

(** The number of [connect] calls made so far. *)
Definition connectAttempts (st : State) : nat :=
  length (filter (λ tc, isConnect tc.2 = true) (trace st)).

(** The session invariants: what every reachable state satisfies.
    - the Firestore listener is attached exactly when identity is ready
      (and then the database handle exists);
    - [connect] was called exactly when [hasConnectedRef] is set, and then
      identity was ready and a username chosen;
    - the transport leaves [Unstarted] only through [connect];
    - an attached listener was attached by an [onSnapshot] call;
    - before identity is ready nothing but identity-provider calls were
      made and no timer is pending. *)
Record sessionInv (st : State) : Prop := {
  inv_subscribed : subscribed st = isAuthReady st;
  inv_deps : subscribed st = true ↔ listenerDeps st = Some (true, true);
  inv_db : isAuthReady st = true → db st = true;
  inv_auth : authListening st = true → db st = true;
  inv_attempts : connectAttempts st = if hasConnectedRef st then 1 else 0;
  inv_guard : hasConnectedRef st = true →
              isAuthReady st = true ∧ truthy (username st) = true;
  inv_transport : connection st ≠ Unstarted → hasConnectedRef st = true;
  inv_before : isAuthReady st = false →
               Forall (λ tc, isAuthCmd tc.2 = true) (trace st) ∧ timers st = [];
  inv_listening : subscribed st = true →
                  ∃ t, (t, OnSnapshot chatQuery) ∈ trace st
}.

(** What the two effects do, field by field. *)
Definition listenerCmds (st : State) : list (N * Cmd) :=
  if bool_decide (listenerDeps st = Some (isAuthReady st, db st)) then []
  else (if subscribed st then [(clock st, Unsubscribe)] else []) ++
       (if isAuthReady st && db st then [(clock st, OnSnapshot chatQuery)]
        else []).

Definition connectGuard (st : State) : bool :=
  isAuthReady st && truthy (username st) && negb (hasConnectedRef st).

Definition connectCmds (st : State) : list (N * Cmd) :=
  if connectGuard st then [(clock st, Connect (username st))] else [].

Definition outsideListener (st : State) :=
  (db st, userId st, isAuthReady st, username st, input st,
   persistentMessages st, typingTimeoutRef st, hasConnectedRef st,
   liveMessages st, connection st, clock st, timers st, nextTimerId st,
   authListening st, pendingAppends st, console st).

Definition outsideConnect (st : State) :=
  (db st, userId st, isAuthReady st, username st, input st,
   persistentMessages st, typingTimeoutRef st, listenerDeps st,
   liveMessages st, clock st, timers st, nextTimerId st, subscribed st,
   authListening st, pendingAppends st, console st).

(** What a handler may do to the fields the session invariants speak of:
    no handler touches the listener bookkeeping or the connect flag, none
    resets identity readiness or a chosen username, none moves the
    transport into or out of [Unstarted], none calls [connect] or the
    snapshot listener, and only a handler of the enabled chat form or a
    pending timer emits anything but identity-provider calls. *)
Record deliverRel (st st' : State) : Prop := {
  dr_subscribed : subscribed st' = subscribed st;
  dr_deps : listenerDeps st' = listenerDeps st;
  dr_ref : hasConnectedRef st' = hasConnectedRef st;
  dr_ready : isAuthReady st = true → isAuthReady st' = true;
  dr_username : truthy (username st) = true → username st' = username st;
  dr_db : (authListening st = true → db st = true) →
          (isAuthReady st = true → db st = true) →
          (authListening st' = true → db st' = true) ∧
          (isAuthReady st' = true → db st' = true);
  dr_connection : connection st' = Unstarted ↔ connection st = Unstarted;
  dr_trace : ∃ new, trace st' = trace st ++ new ∧
     Forall (λ tc, isConnect tc.2 = false ∧ tc.2 ≠ Unsubscribe ∧
                   ∀ q, tc.2 ≠ OnSnapshot q) new ∧
     (Forall (λ tc, isAuthCmd tc.2 = true) new ∨
      connection st = Connected ∨ timers st ≠ []);
  dr_timers : timers st' = [] ∨ connection st = Connected ∨ timers st ≠ []
}.

(** The string is empty or made of white-space characters only. *)
Fixpoint blank (s : string) : bool :=
  match s with
  | String c1 s1 =>
      if isSpace false [c1] then blank s1
      else match s1 with
           | String c2 s2 =>
               if isSpace false [c1; c2] then blank s2
               else match s2 with
                    | String c3 s3 => isSpace false [c1; c2; c3] && blank s3
                    | EmptyString => false
                    end
           | EmptyString => false
           end
  | EmptyString => true
  end.

Definition durableView (collection : list Doc) : list Message :=
  reverse (withDocId <$> runQuery chatQuery collection).





(** The state with the console output dropped: two states with the same
    [noConsole] differ in what was logged only. *)
Definition noConsole (st : State) : State := set_console [] st.

(** [f] never reads the console. *)
Definition consoleBlind (f : State → State) : Prop :=
  ∀ st, noConsole (f st) = noConsole (f (noConsole st)).



(** The message [handleSend] hands to the store. *)
Definition outbound (st : State) : Message :=
  {| msg_id := None; msg_sender := Some (username st);
     msg_text := Some (trim (input st));
     msg_timestamp := Some (toISOString (clock st));
     msg_system := false; msg_isPrivate := false |}.


Definition identified (m : Message) : Prop :=
  ∃ s, msg_id m = Some s ∧ s ≠ "".

(** The position in the view of the live message with live index [j]. *)
Definition livePosition (st : State) (j : nat) : nat :=
  length (persistentMessages st) + j.

(** C3 as the specification states it, for the live message with live
    index [j]: the events [es] leave its display identity unchanged. *)
Definition identityStable (st : State) (es : list Event) (j : nat) : Prop :=
  keys (run es st) !! livePosition (run es st) j = keys st !! livePosition st j.

Definition liveEvent (e : Event) : Prop :=
  match e with ELiveMessage _ => True | _ => False end.

(** *** Data of the concrete sessions *)

Definition doc1 : Doc :=
  {| doc_id := "d1";
     doc_data := {| msg_id := None; msg_sender := Some "bob";
                    msg_text := Some "hello"; msg_timestamp := Some "100";
                    msg_system := false; msg_isPrivate := false |} |}.

Definition doc2 : Doc :=
  {| doc_id := "d2";
     doc_data := {| msg_id := None; msg_sender := Some "carol";
                    msg_text := Some "hi bob"; msg_timestamp := Some "200";
                    msg_system := false; msg_isPrivate := false |} |}.

(** A join notice from the transport: a live message without id. *)
Definition joinNotice : Message :=
  {| msg_id := None; msg_sender := Some "System";
     msg_text := Some "bob joined the chat"; msg_timestamp := Some "050";
     msg_system := true; msg_isPrivate := false |}.

(** A live message that carries an id. *)
Definition liveHello : Message :=
  {| msg_id := Some "m7"; msg_sender := Some "bob";
     msg_text := Some "hello"; msg_timestamp := Some "120";
     msg_system := false; msg_isPrivate := false |}.

(** Mount, anonymous sign-in completes, the user picks a name, the
    transport connects. *)
Definition sessionStart : list Event :=
  [EMount true "k3j9x"; EAuthStateChanged (Some "uid-1");
   EUsernameSubmit " alice "; ETransport TransportUp].

(** Stands in for [toISOString] in the concrete sessions. *)
Definition clockString (t : N) : string := pretty t.

(** *** Vocabulary of the further properties *)

(** No white-space character at the start, respectively at the end, of a
    string. *)
Definition startsClean (s : string) : Prop :=
  ∀ cp rest, cp ∈ whiteSpace → s ≠ encode cp +:+ rest.

Definition endsClean (s : string) : Prop :=
  ∀ cp front, cp ∈ whiteSpace → s ≠ front +:+ encode cp.

(** The rest of the string after one leading white-space character, if it
    has one: one step of [strip]. *)
Definition spaceAhead (back : bool) (s : string) : option string :=
  match s with
  | String c1 s1 =>
      if isSpace back [c1] then Some s1
      else match s1 with
           | String c2 s2 =>
               if isSpace back [c1; c2] then Some s2
               else match s2 with
                    | String c3 s3 =>
                        if isSpace back [c1; c2; c3] then Some s3 else None
                    | EmptyString => None
                    end
           | EmptyString => None
           end
  | EmptyString => None
  end.

(** Every pending timer is due within the next 2000 ms. *)
Definition timerWindow (st : State) : Prop :=
  Forall (λ tm, (clock st < timer_due tm ≤ clock st + 2000)%N) (timers st).

(** What one event can do to the typing emissions, the timer queue and
    the clock: nothing; an input change; an effective send; time passing
    without a timer coming due; or the pending timer firing. *)
Inductive typingStep (st st' : State) : Prop :=
| ts_silent :
    typingEmissions (trace st') = typingEmissions (trace st) →
    timers st' = timers st → clock st' = clock st →
    typingStep st st'
| ts_input (text : string) (h : nat) :
    typingEmissions (trace st') = typingEmissions (trace st) ++
      (if bool_decide (text ≠ "") && bool_decide (timers st = [])
       then [(clock st, true)] else []) →
    timers st' = [{| timer_id := h; timer_due := (clock st + 2000)%N |}] →
    clock st' = clock st →
    typingStep st st'
| ts_send :
    typingEmissions (trace st') =
      typingEmissions (trace st) ++ [(clock st, false)] →
    timers st' = [] → clock st' = clock st →
    typingStep st st'
| ts_wait (dt : N) :
    typingEmissions (trace st') = typingEmissions (trace st) →
    timers st' = timers st →
    Forall (λ tm, (clock st + dt < timer_due tm)%N) (timers st) →
    clock st' = (clock st + dt)%N →
    typingStep st st'
| ts_fire (dt : N) (tm : Timer) :
    timers st = [tm] → (timer_due tm ≤ clock st + dt)%N →
    typingEmissions (trace st') =
      typingEmissions (trace st) ++ [(timer_due tm, false)] →
    timers st' = [] → clock st' = (clock st + dt)%N →
    typingStep st st'.

(** "Start typing" commands sent so far exceed the "stop typing" commands
    only while a timer is pending, and then by one. *)
Definition typingBalance (st : State) : Prop :=
  (starts (trace st) ≤
     stops (trace st) + (if bool_decide (timers st = []) then 0 else 1))%nat.

(** No "start typing" follows a "start typing" directly; [prev] tells
    whether the emission before the list was a start. *)
Fixpoint startsSeparated (prev : bool) (l : list (N * bool)) : bool :=
  match l with
  | [] => true
  | (_, true) :: l' => negb prev && startsSeparated true l'
  | (_, false) :: l' => startsSeparated false l'
  end.

(** The last emission was a "start typing" ([prev] if there is none). *)
Fixpoint endsOpen (prev : bool) (l : list (N * bool)) : bool :=
  match l with
  | [] => prev
  | (_, flag) :: l' => endsOpen flag l'
  end.

(** Starts and stops alternate, and a start is open only while a timer is
    pending. *)
Definition typingOrder (st : State) : Prop :=
  startsSeparated false (typingEmissions (trace st)) = true ∧
  (endsOpen false (typingEmissions (trace st)) = true → timers st ≠ []).

(** *** What is rendered *)

(** [if (!username) return <username prompt>], else the chat interface. *)
Inductive Screen := UsernamePrompt | ChatInterface.

Definition screen (st : State) : Screen :=
  if truthy (username st) then ChatInterface else UsernamePrompt.

(** [disabled={!isConnected}] on the message input. *)
Definition chatInputDisabled (st : State) : bool := negb (isConnected st).

(** [disabled={!input.trim() || !isConnected}] on the send button. *)
Definition sendButtonDisabled (st : State) : bool :=
  negb (truthy (trim (input st))) || negb (isConnected st).

(** [msg.system || msg.sender === 'System'] in the message list. *)
Definition isSystem (msg : Message) : bool :=
  msg_system msg || bool_decide (msg_sender msg = Some "System").

(** The typing indicator under the message list:
    [typingUsers.length > 0 && <span>{names} {verb} typing...</span>] with
    [names = typingUsers.filter(u => u !== username).join(', ')] and
    [verb = typingUsers.length > 1 ? 'are' : 'is']. *)
Definition typingNames (typingUsers : list string) (me : string)
  : list string :=
  filter (λ u, u ≠ me) typingUsers.

Definition typingVerb (typingUsers : list string) : string :=
  if bool_decide (1 < length typingUsers) then "are" else "is".

Definition typingIndicator (typingUsers : list string) (me : string)
  : option string :=
  if bool_decide (0 < length typingUsers)
  then Some (String.concat ", " (typingNames typingUsers me) +:+ " " +:+
             typingVerb typingUsers +:+ " typing...")
  else None.

(** The [onSnapshot] and [unsubscribe] calls made so far. *)
Definition isSnapshotCall (c : Cmd) : bool :=
  match c with OnSnapshot _ => true | _ => false end.

Definition isUnsubscribe (c : Cmd) : bool :=
  match c with Unsubscribe => true | _ => false end.

Definition snapshotCalls (st : State) : nat :=
  length (filter (λ tc, isSnapshotCall tc.2 = true) (trace st)).

Definition unsubscribeCalls (st : State) : nat :=
  length (filter (λ tc, isUnsubscribe tc.2 = true) (trace st)).

(** What one handler can do to the identity fields and the identity
    provider: nothing (and then it calls the provider not at all); a
    successful mount on dummy keys; a successful mount on real keys; the
    auth observer reporting a user; a renewed anonymous sign-in. *)
Inductive identityStep (st st' : State) : Prop :=
| is_other (new : list (N * Cmd)) :
    isAuthReady st' = isAuthReady st → userId st' = userId st →
    authListening st' = authListening st → db st' = db st →
    trace st' = trace st ++ new →
    Forall (λ tc, isAuthCmd tc.2 = false) new →
    identityStep st st'
| is_mount_dummy (rnd : string) :
    IS_DUMMY_KEY = true →
    isAuthReady st' = true → userId st' = Some ("local-dev-user-" +:+ rnd) →
    authListening st' = authListening st → db st' = true →
    trace st' = trace st →
    identityStep st st'
| is_mount_real (c : Cmd) :
    IS_DUMMY_KEY = false →
    isAuthReady st' = isAuthReady st → userId st' = userId st →
    authListening st' = true → db st' = true →
    trace st' = trace st ++ [(clock st, OnAuthStateChanged); (clock st, c)] →
    c = SignInAnonymously ∨
      (∃ token, c = SignInWithCustomToken token ∧ token ≠ "" ∧
                initialAuthToken = Some token) →
    identityStep st st'
| is_user (uid : string) :
    authListening st = true →
    isAuthReady st' = true → userId st' = Some uid →
    authListening st' = true → db st' = db st →
    trace st' = trace st →
    identityStep st st'
| is_retry :
    authListening st = true →
    isAuthReady st' = isAuthReady st → userId st' = userId st →
    authListening st' = true → db st' = db st →
    trace st' = trace st ++ [(clock st, SignInAnonymously)] →
    identityStep st st'.

(** The commands handed to the live transport, in the order they were
    issued. *)
Definition isTransportCmd (c : Cmd) : bool :=
  match c with
  | Connect _ | SendMessage _ | SetTyping _ => true
  | _ => false
  end.

Definition transportCmds (st : State) : list (N * Cmd) :=
  filter (λ tc, isTransportCmd tc.2 = true) (trace st).

(** Once [hasConnectedRef] is set the transport has been handed
    [connect(username)] first and no second [connect]; before that it has
    been handed nothing, and no inactivity timer is pending. *)
Definition connectFirst (st : State) : Prop :=
  if hasConnectedRef st
  then ∃ t rest, transportCmds st = (t, Connect (username st)) :: rest ∧
                 Forall (λ tc, isConnect tc.2 = false) rest
  else transportCmds st = [] ∧ timers st = [].
(** ** Properties *)

(** *** Trimming *)

Lemma string_app_cons (c : Ascii.ascii) (s t : string) :
  String c s +:+ t = String c (s +:+ t).
Proof. reflexivity. Qed.

Lemma string_app_nil_l (s : string) : "" +:+ s = s.
Proof. reflexivity. Qed.

Lemma string_app_assoc (s1 s2 s3 : string) :
  (s1 +:+ s2) +:+ s3 = s1 +:+ (s2 +:+ s3).
Proof.
  induction s1 as [|c s1 IH]; [done|].
  by rewrite !string_app_cons, IH.
Qed.

Lemma string_app_nil_r (s : string) : s +:+ "" = s.
Proof.
  induction s as [|c s IH]; [done|]. by rewrite string_app_cons, IH.
Qed.

Lemma rev_app_spec (s acc : string) :
  String.rev_app s acc = String.rev s +:+ acc.
Proof.
  unfold String.rev. revert acc.
  induction s as [|c s IH]; intros acc; simpl; [done|].
  rewrite (IH (String c acc)), (IH (String c "")).
  by rewrite string_app_assoc, string_app_cons, string_app_nil_l.
Qed.

Lemma rev_cons (c : Ascii.ascii) (s : string) :
  String.rev (String c s) = String.rev s +:+ String c "".
Proof. unfold String.rev at 1. simpl. apply rev_app_spec. Qed.

Lemma rev_app_distr (s1 s2 : string) :
  String.rev (s1 +:+ s2) = String.rev s2 +:+ String.rev s1.
Proof.
  induction s1 as [|c s1 IH].
  - by rewrite string_app_nil_l, string_app_nil_r.
  - by rewrite string_app_cons, !rev_cons, IH, string_app_assoc.
Qed.

Lemma rev_involutive (s : string) : String.rev (String.rev s) = s.
Proof.
  induction s as [|c s IH]; [done|].
  rewrite rev_cons, rev_app_distr, IH. reflexivity.
Qed.

Lemma rev_empty s : String.rev s = "" → s = "".
Proof. intros H. by rewrite <- (rev_involutive s), H. Qed.

Lemma string_of_list_snoc (cs : list Ascii.ascii) c :
  String.string_of_list_ascii (cs ++ [c]) = String.string_of_list_ascii cs +:+ String c "".
Proof.
  induction cs as [|d cs IH]; [done|].
  simpl. by rewrite IH, string_app_cons.
Qed.

Lemma rev_string_of_list (cs : list Ascii.ascii) :
  String.rev (String.string_of_list_ascii cs) = String.string_of_list_ascii (reverse cs).
Proof.
  induction cs as [|c cs IH]; [done|].
  simpl. by rewrite rev_cons, IH, reverse_cons, string_of_list_snoc.
Qed.

Lemma string_length_ind (P : string → Prop) :
  (∀ s, (∀ t, (String.length t < String.length s)%nat → P t) → P s) →
  ∀ s, P s.
Proof.
  intros H.
  assert (∀ n s, (String.length s < n)%nat → P s) as Hlt.
  { induction n as [|n IH]; intros s Hs; [lia|].
    apply H. intros t Ht. apply IH. lia. }
  intros s. apply (Hlt (S (String.length s))). lia.
Qed.

(** [strip] and [blank], one white-space character at a time. *)
Lemma strip_unfold back s :
  strip back s =
  match spaceAhead back s with Some r => strip back r | None => s end.
Proof.
  destruct s as [|c1 s1]; [done|]. cbn [strip spaceAhead].
  destruct (isSpace back [c1]); [done|].
  destruct s1 as [|c2 s2]; [done|].
  destruct (isSpace back [c1; c2]); [done|].
  destruct s2 as [|c3 s3]; [done|].
  by destruct (isSpace back [c1; c2; c3]).
Qed.

Lemma blank_unfold s :
  blank s =
  match spaceAhead false s with
  | Some r => blank r
  | None => bool_decide (s = "")
  end.
Proof.
  destruct s as [|c1 s1]; [done|]. cbn [blank spaceAhead].
  destruct (isSpace false [c1]); [done|].
  destruct s1 as [|c2 s2]; [done|].
  destruct (isSpace false [c1; c2]); [done|].
  destruct s2 as [|c3 s3]; [done|].
  by destruct (isSpace false [c1; c2; c3]).
Qed.

Lemma spaceAhead_shorter back s r :
  spaceAhead back s = Some r → (String.length r < String.length s)%nat.
Proof.
  destruct s as [|c1 s1]; [done|]. cbn [spaceAhead].
  destruct (isSpace back [c1]); [intros [= <-]; simpl; lia|].
  destruct s1 as [|c2 s2]; [done|].
  destruct (isSpace back [c1; c2]); [intros [= <-]; simpl; lia|].
  destruct s2 as [|c3 s3]; [done|].
  destruct (isSpace back [c1; c2; c3]); [intros [= <-]; simpl; lia|done].
Qed.

Lemma spaceAhead_Some back s r :
  spaceAhead back s = Some r →
  ∃ cs, isSpace back cs = true ∧ s = String.string_of_list_ascii cs +:+ r.
Proof.
  destruct s as [|c1 s1]; [done|]. cbn [spaceAhead].
  destruct (isSpace back [c1]) eqn:H1; [intros [= <-]; by exists [c1]|].
  destruct s1 as [|c2 s2]; [done|].
  destruct (isSpace back [c1; c2]) eqn:H2;
    [intros [= <-]; by exists [c1; c2]|].
  destruct s2 as [|c3 s3]; [done|].
  destruct (isSpace back [c1; c2; c3]) eqn:H3;
    [intros [= <-]; by exists [c1; c2; c3]|done].
Qed.

Lemma ascii_bytes_roundtrip (cs : list Ascii.ascii) :
  Ascii.ascii_of_N <$> (Ascii.N_of_ascii <$> cs) = cs.
Proof.
  induction cs as [|c cs IH]; [done|].
  by rewrite !fmap_cons, Ascii.ascii_N_embedding, IH.
Qed.

(** The bytes [isSpace] accepts are the encoding of a white-space
    character. *)
Lemma isSpace_encode back cs :
  isSpace back cs = true →
  ∃ cp, cp ∈ whiteSpace ∧
        String.string_of_list_ascii (if back then reverse cs else cs) = encode cp.
Proof.
  unfold isSpace. intros H%bool_decide_eq_true.
  apply list_elem_of_fmap in H as (cp & Hbytes & Hcp).
  exists cp. split; [done|]. unfold encode. rewrite <- Hbytes.
  destruct back.
  - by rewrite <- fmap_reverse, ascii_bytes_roundtrip.
  - by rewrite ascii_bytes_roundtrip.
Qed.

(** Conversely, every white-space character at the head, or at the end of
    the string read backwards, is seen. *)
Lemma encode_spaceAhead cp rest :
  cp ∈ whiteSpace → spaceAhead false (encode cp +:+ rest) = Some rest.
Proof.
  unfold whiteSpace. rewrite !elem_of_cons, elem_of_nil.
  intros H. destruct_or!; try done; subst cp; vm_compute; reflexivity.
Qed.

Lemma encode_spaceAhead_back cp front :
  cp ∈ whiteSpace →
  spaceAhead true (String.rev (front +:+ encode cp)) = Some (String.rev front).
Proof.
  rewrite rev_app_distr. generalize (String.rev front). intros rest.
  unfold whiteSpace. rewrite !elem_of_cons, elem_of_nil.
  intros H. destruct_or!; try done; subst cp; vm_compute; reflexivity.
Qed.

Lemma startsClean_iff s : startsClean s ↔ spaceAhead false s = None.
Proof.
  split.
  - intros Hclean. destruct (spaceAhead false s) as [r|] eqn:Hs; [|done].
    apply spaceAhead_Some in Hs as (cs & Hcs & ->).
    apply isSpace_encode in Hcs as (cp & Hcp & Hcs).
    destruct (Hclean cp r Hcp). by rewrite Hcs.
  - intros Hnone cp rest Hcp ->.
    by rewrite encode_spaceAhead in Hnone.
Qed.

Lemma endsClean_iff s : endsClean s ↔ spaceAhead true (String.rev s) = None.
Proof.
  split.
  - intros Hclean.
    destruct (spaceAhead true (String.rev s)) as [r|] eqn:Hs; [|done].
    apply spaceAhead_Some in Hs as (cs & Hcs & Hrev).
    apply isSpace_encode in Hcs as (cp & Hcp & Hcs).
    destruct (Hclean cp (String.rev r) Hcp).
    rewrite <- (rev_involutive s), Hrev, rev_app_distr.
    by rewrite rev_string_of_list, Hcs.
  - intros Hnone cp front Hcp ->.
    by rewrite encode_spaceAhead_back in Hnone.
Qed.

Lemma strip_clean back s : spaceAhead back (strip back s) = None.
Proof.
  induction s as [s IH] using string_length_ind.
  rewrite strip_unfold. destruct (spaceAhead back s) as [r|] eqn:Hs; [|done].
  apply IH. by apply spaceAhead_shorter in Hs.
Qed.

Lemma strip_fixed back s : spaceAhead back s = None → strip back s = s.
Proof. intros H. by rewrite strip_unfold, H. Qed.

(** Only a front part is dropped. *)
Lemma strip_suffix back s : ∃ w, s = w +:+ strip back s.
Proof.
  induction s as [s IH] using string_length_ind.
  rewrite strip_unfold. destruct (spaceAhead back s) as [r|] eqn:Hs.
  - destruct (IH r (spaceAhead_shorter _ _ _ Hs)) as [w Hw].
    apply spaceAhead_Some in Hs as (cs & _ & ->).
    exists (String.string_of_list_ascii cs +:+ w).
    by rewrite string_app_assoc, <- Hw.
  - by exists "".
Qed.

Lemma trimStart_startsClean s : startsClean (trimStart s).
Proof. apply startsClean_iff, strip_clean. Qed.

Lemma trimStart_clean s : startsClean s → trimStart s = s.
Proof. intros H%startsClean_iff. by apply strip_fixed. Qed.

Lemma trimStart_idemp s : trimStart (trimStart s) = trimStart s.
Proof. apply trimStart_clean, trimStart_startsClean. Qed.

Lemma trimEnd_endsClean s : endsClean (trimEnd s).
Proof.
  apply endsClean_iff. unfold trimEnd. rewrite rev_involutive.
  apply strip_clean.
Qed.

Lemma trimEnd_clean s : endsClean s → trimEnd s = s.
Proof.
  intros H%endsClean_iff. unfold trimEnd.
  by rewrite strip_fixed, rev_involutive.
Qed.

Lemma trimEnd_idemp s : trimEnd (trimEnd s) = trimEnd s.
Proof. apply trimEnd_clean, trimEnd_endsClean. Qed.

(** Trimming the end leaves a front part of the string. *)
Lemma trimEnd_prefix s : ∃ w, s = trimEnd s +:+ w.
Proof.
  destruct (strip_suffix true (String.rev s)) as [w Hw].
  exists (String.rev w). unfold trimEnd.
  rewrite <- rev_app_distr, <- Hw. by rewrite rev_involutive.
Qed.

Lemma trimEnd_startsClean s : startsClean s → startsClean (trimEnd s).
Proof.
  intros Hclean cp rest Hcp Heq.
  destruct (trimEnd_prefix s) as [w Hw].
  apply (Hclean cp (rest +:+ w) Hcp).
  etrans; [exact Hw|]. by rewrite Heq, string_app_assoc.
Qed.

Lemma trim_startsClean s : startsClean (trim s).
Proof. apply trimEnd_startsClean, trimStart_startsClean. Qed.

Lemma trim_endsClean s : endsClean (trim s).
Proof. apply trimEnd_endsClean. Qed.

Lemma trim_idemp s : trim (trim s) = trim s.
Proof.
  unfold trim at 1. rewrite (trimStart_clean (trim s)) by apply trim_startsClean.
  unfold trim. apply trimEnd_idemp.
Qed.

Lemma trimStart_empty s : trimStart s = "" ↔ blank s = true.
Proof.
  unfold trimStart. induction s as [s IH] using string_length_ind.
  rewrite strip_unfold, blank_unfold.
  destruct (spaceAhead false s) as [r|] eqn:Hs.
  - apply IH. by apply spaceAhead_shorter in Hs.
  - by rewrite bool_decide_eq_true.
Qed.

Lemma trimStart_blank s : blank s = true → trimStart s = "".
Proof. apply trimStart_empty. Qed.

(** A string of white space only, read backwards: its last character read
    is the string's first. *)
Lemma strip_back_empty u :
  strip true u = "" →
  u = "" ∨ ∃ cp front, cp ∈ whiteSpace ∧ String.rev u = encode cp +:+ front.
Proof.
  induction u as [u IH] using string_length_ind.
  rewrite strip_unfold. destruct (spaceAhead true u) as [r|] eqn:Hu; [|by left].
  intros Hr. right.
  destruct (IH r (spaceAhead_shorter _ _ _ Hu) Hr)
    as [->|(cp & front & Hcp & Hrev)].
  - apply spaceAhead_Some in Hu as (cs & Hcs & ->).
    apply isSpace_encode in Hcs as (cp & Hcp & Hcs).
    exists cp, "". split; [done|].
    by rewrite string_app_nil_r, rev_string_of_list, Hcs, string_app_nil_r.
  - apply spaceAhead_Some in Hu as (cs & _ & ->).
    exists cp, (front +:+ String.rev (String.string_of_list_ascii cs)).
    split; [done|]. by rewrite rev_app_distr, Hrev, string_app_assoc.
Qed.

Lemma trimEnd_empty s : startsClean s → trimEnd s = "" → s = "".
Proof.
  intros Hclean Hempty%rev_empty.
  destruct (strip_back_empty _ Hempty) as [H|(cp & front & Hcp & Hrev)].
  - by apply rev_empty.
  - rewrite rev_involutive in Hrev. by destruct (Hclean cp front Hcp).
Qed.

(** The trimmed string is empty exactly for white space only. *)
Lemma trim_empty s : trim s = "" ↔ blank s = true.
Proof.
  rewrite <- trimStart_empty. unfold trim. split.
  - apply trimEnd_empty, trimStart_startsClean.
  - by intros ->.
Qed.

Lemma trim_blank s : blank s = true → trim s = "".
Proof. apply trim_empty. Qed.


(** *** The timer discipline *)


Lemma timerInv_initial : timerInv initial.
Proof. split; simpl; [lia | done]. Qed.

Lemma noTimerHandle_inv st :
  timerInv st → noTimerHandle (typingTimeoutRef st) = bool_decide (timers st = []).
Proof.
  intros [_ H]. destruct (typingTimeoutRef st) as [h|]; simpl.
  - destruct H as [Hids Hpos].
    rewrite bool_decide_eq_false_2 by lia.
    rewrite bool_decide_eq_false_2; [done|].
    intros Hnil. by rewrite Hnil in Hids.
  - by rewrite H, bool_decide_eq_true_2.
Qed.

Lemma clearTimeout_inv st :
  timerInv st → timers (clearTimeout (typingTimeoutRef st) st) = [].
Proof.
  intros [_ H]. destruct (typingTimeoutRef st) as [h|]; simpl; [|done].
  destruct H as [Hids _].
  destruct (timers st) as [|tm [|tm' tms]]; simplify_eq/=.
  rewrite filter_cons_False; [done|]. naive_solver.
Qed.

Lemma clearTimeout_trace ref st : trace (clearTimeout ref st) = trace st.
Proof. by destruct ref. Qed.

Lemma clearTimeout_clock ref st : clock (clearTimeout ref st) = clock st.
Proof. by destruct ref. Qed.

Lemma clearTimeout_nextTimerId ref st :
  nextTimerId (clearTimeout ref st) = nextTimerId st.
Proof. by destruct ref. Qed.

(** What one input change does to the timer queue and the trace. *)
Lemma handleInputChange_spec newText st :
  timerInv st →
  let st' := handleInputChange newText st in
  trace st' = trace st ++
    (if bool_decide (newText ≠ "") && bool_decide (timers st = [])
     then [(clock st, SetTyping true)] else []) ∧
  timers st' = [{| timer_id := nextTimerId st;
                   timer_due := (clock st + 2000)%N |}] ∧
  typingTimeoutRef st' = Some (nextTimerId st) ∧
  nextTimerId st' = S (nextTimerId st) ∧
  clock st' = clock st ∧ input st' = newText.
Proof.
  intros Hinv. pose proof (noTimerHandle_inv st Hinv) as Hno.
  pose proof (clearTimeout_inv st Hinv) as Hclr.
  assert (bool_decide (0 < String.length newText) = bool_decide (newText ≠ ""))
    as Hlen.
  { apply bool_decide_ext. destruct newText; simpl; split; (done || lia). }
  unfold handleInputChange, setTimeout. simpl. rewrite Hlen, Hno.
  destruct (bool_decide (newText ≠ "") && bool_decide (timers st = []));
    simpl; rewrite ?clearTimeout_trace, ?clearTimeout_clock,
      ?clearTimeout_nextTimerId; simpl.
  - unfold clearTimeout in *. simpl in *.
    destruct (typingTimeoutRef st); simpl in *; rewrite Hclr; done.
  - unfold clearTimeout in *. simpl in *.
    destruct (typingTimeoutRef st); simpl in *; rewrite Hclr, ?app_nil_r; done.
Qed.

Lemma timerInv_handleInputChange newText st :
  timerInv st → timerInv (handleInputChange newText st).
Proof.
  intros Hinv.
  destruct (handleInputChange_spec newText st Hinv)
    as (_ & Htm & Href & Hn & _).
  destruct Hinv as [Hpos _].
  split; [lia|]. rewrite Href, Htm. simpl. split; [done | lia].
Qed.

Lemma typingEmissions_app tr1 tr2 :
  typingEmissions (tr1 ++ tr2) = typingEmissions tr1 ++ typingEmissions tr2.
Proof. apply omap_app. Qed.

Lemma starts_app tr1 tr2 : starts (tr1 ++ tr2) = starts tr1 + starts tr2.
Proof.
  unfold starts. by rewrite typingEmissions_app, filter_app, length_app.
Qed.

Lemma stops_app tr1 tr2 : stops (tr1 ++ tr2) = stops tr1 + stops tr2.
Proof.
  unfold stops. by rewrite typingEmissions_app, filter_app, length_app.
Qed.

Lemma fire_preserves {A} (f : State → A) :
  (∀ s d, f (typingTimeoutCallback (set_clock d s)) = f s) →
  ∀ due st, f (fire st due) = f st.
Proof.
  intros Hf due. induction due as [|tm due IH]; intros st; [done|].
  unfold fire in *. cbn [foldl]. by rewrite IH, Hf.
Qed.

Lemma advance_preserves {A} (f : State → A) dt st :
  (∀ s d, f (typingTimeoutCallback (set_clock d s)) = f s) →
  (∀ s tms, f (set_timers tms s) = f s) →
  (∀ s c, f (set_clock c s) = f s) →
  f (advance dt st) = f st.
Proof.
  intros Hcb Htm Hck. unfold advance.
  by rewrite Hck, (fire_preserves f Hcb), Htm.
Qed.

Lemma advance_frame dt st :
  db (advance dt st) = db st ∧
  isAuthReady (advance dt st) = isAuthReady st ∧
  username (advance dt st) = username st ∧
  hasConnectedRef (advance dt st) = hasConnectedRef st ∧
  listenerDeps (advance dt st) = listenerDeps st ∧
  connection (advance dt st) = connection st ∧
  subscribed (advance dt st) = subscribed st ∧
  authListening (advance dt st) = authListening st ∧
  persistentMessages (advance dt st) = persistentMessages st ∧
  liveMessages (advance dt st) = liveMessages st.
Proof. split_and!; by apply advance_preserves. Qed.


Lemma advance_nextTimerId dt st : nextTimerId (advance dt st) = nextTimerId st.
Proof. by apply advance_preserves. Qed.

Lemma advance_pendingAppends dt st :
  pendingAppends (advance dt st) = pendingAppends st.
Proof. by apply advance_preserves. Qed.

Lemma advance_clock dt st : clock (advance dt st) = (clock st + dt)%N.
Proof. done. Qed.

(** With no timer pending, time passes silently. *)
Lemma advance_idle dt st :
  timers st = [] →
  trace (advance dt st) = trace st ∧ timers (advance dt st) = [] ∧
  typingTimeoutRef (advance dt st) = typingTimeoutRef st.
Proof. intros H. unfold advance. rewrite H. done. Qed.

(** A single pending timer fires exactly when its due time is reached. *)
Lemma advance_one dt st tm :
  timers st = [tm] →
  let st' := advance dt st in
  if dueBy (clock st + dt) tm then
    trace st' = trace st ++ [(timer_due tm, SetTyping false)] ∧
    timers st' = [] ∧ typingTimeoutRef st' = None
  else
    trace st' = trace st ∧ timers st' = [tm] ∧
    typingTimeoutRef st' = typingTimeoutRef st.
Proof.
  intros H. unfold advance. rewrite H.
  destruct (dueBy (clock st + dt) tm) eqn:Hdue.
  - rewrite (filter_cons_True (λ tm, dueBy _ tm = true)) by exact Hdue.
    rewrite (filter_cons_False (λ tm, dueBy _ tm ≠ true))
      by (simpl; rewrite Hdue; intros Hne; by apply Hne).
    done.
  - rewrite (filter_cons_False (λ tm, dueBy _ tm = true))
      by (simpl; rewrite Hdue; done).
    rewrite (filter_cons_True (λ tm, dueBy _ tm ≠ true))
      by (simpl; rewrite Hdue; done).
    done.
Qed.

Lemma timerInv_advance dt st : timerInv st → timerInv (advance dt st).
Proof.
  intros [Hpos H]. split; [by rewrite advance_nextTimerId|].
  destruct (typingTimeoutRef st) as [h|] eqn:Href.
  - destruct H as [Hids Hh].
    destruct (timers st) as [|tm [|tm' tms]] eqn:Htm; simplify_eq/=.
    pose proof (advance_one dt st tm Htm) as Hadv. simpl in Hadv.
    destruct (dueBy (clock st + dt) tm).
    + destruct Hadv as (_ & -> & ->). done.
    + destruct Hadv as (_ & -> & ->). rewrite Href. done.
  - destruct (advance_idle dt st H) as (_ & -> & ->). by rewrite Href.
Qed.

Lemma timerInv_handleSend st : timerInv st → timerInv (handleSend st).
Proof.
  intros Hinv. unfold handleSend.
  destruct (negb (truthy (trim (input st))) || negb (truthy (username st)));
    [done|].
  destruct Hinv as [Hpos H]. unfold sendMessageToDb. simpl.
  destruct (db st); simpl.
  - destruct (typingTimeoutRef st) as [h|]; simpl; [|done].
    destruct H as [Hids _]. split; [done|].
    destruct (timers st) as [|tm [|tm' tms]]; simplify_eq/=.
    rewrite filter_cons_False; [done|]. naive_solver.
  - destruct (typingTimeoutRef st) as [h|]; simpl; [|done].
    destruct H as [Hids _]. split; [done|].
    destruct (timers st) as [|tm [|tm' tms]]; simplify_eq/=.
    rewrite filter_cons_False; [done|]. naive_solver.
Qed.

(** *** Frames: what the other handlers and the effects leave alone *)

Ltac unfold_handlers :=
  unfold firebaseInitEffect, authStateCallback, usernameSubmit,
    snapshotCallback, snapshotErrorCallback, addDocSettled, onLiveMessage,
    onTransport, firestoreListenerEffect, socketConnectEffect, connect,
    sendMessage, setTyping, sendMessageToDb, emit, console_error,
    console_warn in *.

Lemma timerInv_ext st st' :
  typingTimeoutRef st' = typingTimeoutRef st → timers st' = timers st →
  nextTimerId st' = nextTimerId st → timerInv st → timerInv st'.
Proof. unfold timerInv. by intros -> -> ->. Qed.

Lemma runEffects_timing st :
  typingTimeoutRef (runEffects st) = typingTimeoutRef st ∧
  timers (runEffects st) = timers st ∧
  nextTimerId (runEffects st) = nextTimerId st ∧
  clock (runEffects st) = clock st.
Proof.
  unfold runEffects. unfold_handlers.
  repeat (case_match; simpl in *); done.
Qed.

Lemma runEffects_view st :
  persistentMessages (runEffects st) = persistentMessages st ∧
  liveMessages (runEffects st) = liveMessages st.
Proof.
  unfold runEffects. unfold_handlers.
  repeat (case_match; simpl in *); done.
Qed.

Lemma runEffects_typingEmissions st :
  typingEmissions (trace (runEffects st)) = typingEmissions (trace st).
Proof.
  unfold runEffects. unfold_handlers.
  repeat (case_match; simpl in *);
    rewrite ?typingEmissions_app; simpl; rewrite ?app_nil_r; done.
Qed.



Lemma runEffects_db st : db (runEffects st) = db st.
Proof.
  unfold runEffects. unfold_handlers.
  repeat (case_match; simpl in *); done.
Qed.

Lemma runEffects_username st : username (runEffects st) = username st.
Proof.
  unfold runEffects. unfold_handlers.
  repeat (case_match; simpl in *); done.
Qed.

Lemma timerInv_runEffects st : timerInv st → timerInv (runEffects st).
Proof.
  destruct (runEffects_timing st) as (Href & Htm & Hn & _).
  by apply timerInv_ext.
Qed.

Lemma timerInv_deliver e st : timerInv st → timerInv (deliver e st).
Proof.
  intros Hinv. destruct e; simpl.
  - revert Hinv. apply timerInv_ext; unfold_handlers;
      repeat (case_match; simpl in *); done.
  - revert Hinv. apply timerInv_ext; unfold_handlers;
      repeat (case_match; simpl in *); done.
  - revert Hinv. apply timerInv_ext; unfold_handlers;
      repeat (case_match; simpl in *); done.
  - case_match; [by apply timerInv_handleInputChange | done].
  - case_match; [by apply timerInv_handleSend | done].
  - by apply timerInv_advance.
  - revert Hinv. apply timerInv_ext; unfold_handlers;
      repeat (case_match; simpl in *); done.
  - revert Hinv. apply timerInv_ext; unfold_handlers;
      repeat (case_match; simpl in *); done.
  - revert Hinv. apply timerInv_ext; unfold_handlers;
      repeat (case_match; simpl in *); done.
  - revert Hinv. apply timerInv_ext; unfold_handlers;
      repeat (case_match; simpl in *); done.
  - revert Hinv. apply timerInv_ext; unfold_handlers;
      repeat (case_match; simpl in *); done.
  - revert Hinv. apply timerInv_ext; unfold tokenSignInRejected, emit;
      repeat (case_match; simpl in *); done.
Qed.

Lemma timerInv_step e st : timerInv st → timerInv (step e st).
Proof. intros H. by apply timerInv_runEffects, timerInv_deliver. Qed.

Lemma run_app es1 es2 st : run (es1 ++ es2) st = run es2 (run es1 st).
Proof. apply foldl_app. Qed.

Lemma run_cons e es st : run (e :: es) st = run es (step e st).
Proof. done. Qed.

Lemma run_snoc es e st : run (es ++ [e]) st = step e (run es st).
Proof. by rewrite run_app. Qed.

(** An invariant of [step] that holds initially holds in every reachable
    state. *)
Lemma run_invariant (P : State → Prop) es st :
  (∀ e s, P s → P (step e s)) → P st → P (run es st).
Proof.
  intros Hstep. revert st. induction es as [|e es IH]; intros st H; [done|].
  rewrite run_cons. by apply IH, Hstep.
Qed.

Lemma timerInv_run es st : timerInv st → timerInv (run es st).
Proof. apply run_invariant. intros e s. apply timerInv_step. Qed.

(** *** C10 *)

(** C10. An input change emits "start typing" exactly when the new text is
    non-empty and no inactivity timer is pending, and never emits "stop
    typing" itself, not even when it empties the field: it cancels the
    pending timer and schedules a fresh one, due 2000 ms later, whose
    expiry is what emits "stop typing". *)
Theorem input_change_typing_emissions newText st :
  timerInv st →
  let st' := handleInputChange newText st in
  trace st' = trace st ++
    (if bool_decide (newText ≠ "") && bool_decide (timers st = [])
     then [(clock st, SetTyping true)] else []) ∧
  stops (trace st') = stops (trace st) ∧
  timers st' = [{| timer_id := nextTimerId st;
                   timer_due := (clock st + 2000)%N |}] ∧
  typingTimeoutRef st' = Some (nextTimerId st) ∧
  (∀ dt, (dt < 2000)%N → trace (advance dt st') = trace st') ∧
  (∀ dt, (2000 ≤ dt)%N →
     trace (advance dt st') =
       trace st' ++ [((clock st + 2000)%N, SetTyping false)] ∧
     timers (advance dt st') = []).
Proof.
  intros Hinv st'.
  destruct (handleInputChange_spec newText st Hinv)
    as (Htr & Htm & Href & Hn & Hck & Hin).
  fold st' in Htr, Htm, Href, Hn, Hck, Hin. clearbody st'.
  split_and!; try done.
  - rewrite Htr, stops_app.
    destruct (bool_decide (newText ≠ "") && bool_decide (timers st = []));
      simpl; unfold stops; simpl; lia.
  - intros dt Hdt. pose proof (advance_one dt st' _ Htm) as H.
    cbv zeta in H. unfold dueBy in H. cbn [timer_due] in H. rewrite Hck in H.
    destruct (N.leb_spec (clock st + 2000) (clock st + dt)); [lia|].
    by destruct H.
  - intros dt Hdt. pose proof (advance_one dt st' _ Htm) as H.
    cbv zeta in H. unfold dueBy in H. cbn [timer_due] in H. rewrite Hck in H.
    destruct (N.leb_spec (clock st + 2000) (clock st + dt)); [|lia].
    by destruct H as (? & ? & ?).
Qed.

Lemma isConnected_true st : isConnected st = true → connection st = Connected.
Proof. unfold isConnected. by intros ?%bool_decide_eq_true. Qed.

(** *** Reachable states and the session invariants *)

Lemma reachable_initial : reachable initial.
Proof. by exists []. Qed.

Lemma reachable_step e st : reachable st → reachable (step e st).
Proof. intros [es ->]. exists (es ++ [e]). by rewrite run_snoc. Qed.

Lemma reachable_run es st : reachable st → reachable (run es st).
Proof. intros [es0 ->]. exists (es0 ++ es). by rewrite run_app. Qed.

Lemma reachable_ind (P : State → Prop) :
  P initial → (∀ e s, reachable s → P s → P (step e s)) →
  ∀ st, reachable st → P st.
Proof.
  intros Hinit Hstep st [es ->].
  induction es as [|e es IH] using rev_ind; [done|].
  rewrite run_snoc. apply Hstep; [by exists es | done].
Qed.

Lemma reachable_timerInv st : reachable st → timerInv st.
Proof. intros [es ->]. apply timerInv_run, timerInv_initial. Qed.

(** What the timers add to the trace is "stop typing" only. *)
Lemma fire_trace due st :
  ∃ new, trace (fire st due) = trace st ++ new ∧
         Forall (λ tc, tc.2 = SetTyping false) new.
Proof.
  revert st. induction due as [|tm due IH]; intros st.
  - exists []. by rewrite app_nil_r.
  - unfold fire in *. cbn [foldl].
    destruct (IH (typingTimeoutCallback (set_clock (timer_due tm) st)))
      as (new & -> & Hnew).
    exists ((timer_due tm, SetTyping false) :: new). simpl.
    rewrite <- app_assoc. split; [done|]. by constructor.
Qed.

Lemma advance_trace dt st :
  ∃ new, trace (advance dt st) = trace st ++ new ∧
         Forall (λ tc, tc.2 = SetTyping false) new.
Proof.
  unfold advance.
  destruct (fire_trace (filter (λ tm, dueBy (clock st + dt) tm = true) (timers st))
    (set_timers (filter (λ tm, dueBy (clock st + dt) tm ≠ true) (timers st)) st))
    as (new & Hnew & HF).
  exists new. split; [|done]. exact Hnew.
Qed.

Lemma filter_stop_nil (P : Cmd → bool) new :
  P (SetTyping false) = false →
  Forall (λ tc : N * Cmd, tc.2 = SetTyping false) new →
  filter (λ tc, P tc.2 = true) new = [].
Proof.
  intros HP. induction 1 as [|[t c] new Hc _ IH]; [done|].
  simpl in Hc. subst c. rewrite filter_cons_False; [done|].
  simpl. by rewrite HP.
Qed.

Lemma sessionInv_initial : sessionInv initial.
Proof. split; simpl; try done. Qed.

Lemma firestoreListenerEffect_spec st :
  let st' := firestoreListenerEffect st in
  trace st' = trace st ++ listenerCmds st ∧
  listenerDeps st' = Some (isAuthReady st, db st) ∧
  subscribed st' =
    (if bool_decide (listenerDeps st = Some (isAuthReady st, db st))
     then subscribed st else isAuthReady st && db st) ∧
  outsideListener st' = outsideListener st.
Proof.
  unfold firestoreListenerEffect, listenerCmds, outsideListener, emit.
  destruct (bool_decide (listenerDeps st = Some (isAuthReady st, db st)))
    eqn:E.
  - apply bool_decide_eq_true in E. by rewrite app_nil_r.
  - destruct (subscribed st) eqn:Hsub; simpl;
      destruct (isAuthReady st) eqn:Hready, (db st) eqn:Hdb; simpl;
      rewrite ?Hsub, ?Hready, ?Hdb, <- ?app_assoc, ?app_nil_r; done.
Qed.

Lemma socketConnectEffect_spec st :
  let st' := socketConnectEffect st in
  trace st' = trace st ++ connectCmds st ∧
  hasConnectedRef st' = hasConnectedRef st || connectGuard st ∧
  connection st' =
    (if connectGuard st
     then match connection st with Unstarted => Connecting | c => c end
     else connection st) ∧
  outsideConnect st' = outsideConnect st.
Proof.
  unfold socketConnectEffect, connectCmds, outsideConnect, connect, emit.
  fold (connectGuard st). unfold connectGuard at 1.
  destruct (connectGuard st) eqn:E; simpl.
  - unfold connectGuard in E. rewrite E.
    apply andb_true_iff in E as [_ ->%negb_true_iff]. done.
  - unfold connectGuard in E. rewrite E.
    by rewrite app_nil_r, orb_false_r.
Qed.

Lemma deliverRel_refl st : deliverRel st st.
Proof.
  split; try done.
  - exists []. rewrite app_nil_r. split_and!; [done | constructor |].
    left. constructor.
  - destruct (timers st); [by left | by right; right].
Qed.

Lemma deliverRel_silent st st' :
  trace st' = trace st → timers st' = timers st →
  subscribed st' = subscribed st → listenerDeps st' = listenerDeps st →
  hasConnectedRef st' = hasConnectedRef st →
  isAuthReady st' = isAuthReady st → db st' = db st →
  authListening st' = authListening st →
  (truthy (username st) = true → username st' = username st) →
  (connection st' = Unstarted ↔ connection st = Unstarted) →
  deliverRel st st'.
Proof.
  intros Htr Htm Hsub Hdeps Href Hready Hdb Hauth Huser Hconn.
  split; try done.
  - by rewrite Hready.
  - by rewrite Hready, Hdb, Hauth.
  - exists []. rewrite app_nil_r. split_and!; [done | constructor |].
    left. constructor.
  - rewrite Htm. destruct (timers st); [by left | by right; right].
Qed.

Lemma Forall_auth_not_ops new :
  Forall (λ tc : N * Cmd, isAuthCmd tc.2 = true) new →
  Forall (λ tc : N * Cmd, isConnect tc.2 = false ∧ tc.2 ≠ Unsubscribe ∧
                ∀ q, tc.2 ≠ OnSnapshot q) new.
Proof.
  intros HF. eapply Forall_impl; [exact HF|]. intros [t c] H. simpl in *.
  destruct c; simpl in *; try done.
Qed.

Lemma deliverRel_firebaseInit initOk rnd st :
  deliverRel st (firebaseInitEffect initOk rnd st).
Proof.
  unfold firebaseInitEffect. destruct initOk; [|by apply deliverRel_silent].
  destruct IS_DUMMY_KEY.
  - split; simpl; try done.
    + exists []. rewrite app_nil_r. split_and!; [done | constructor |].
      left. constructor.
    + destruct (timers st); [by left | by right; right].
  - assert (∃ c, isAuthCmd c = true ∧
              match initialAuthToken with
              | Some token =>
                  if truthy token then SignInWithCustomToken token
                  else SignInAnonymously
              | None => SignInAnonymously
              end = c) as (c & Hc & Hsign).
    { destruct initialAuthToken as [tok|]; [destruct (truthy tok)|];
        eexists; (split; [|done]); done. }
    assert (∀ s, match initialAuthToken with
              | Some token =>
                  if truthy token then emit (SignInWithCustomToken token) s
                  else emit SignInAnonymously s
              | None => emit SignInAnonymously s
              end = emit c s) as ->.
    { intros s. rewrite <- Hsign.
      destruct initialAuthToken as [tok|]; [destruct (truthy tok)|]; done. }
    assert (Forall (λ tc : N * Cmd, isAuthCmd tc.2 = true)
              [(clock st, OnAuthStateChanged); (clock st, c)]) as Hauth.
    { repeat constructor; done. }
    split; simpl; try done.
    + exists [(clock st, OnAuthStateChanged); (clock st, c)].
      rewrite <- app_assoc. split_and!; [done | | by left].
      by apply Forall_auth_not_ops.
    + destruct (timers st); [by left | by right; right].
Qed.

Lemma deliverRel_handleInputChange newText st :
  timerInv st → connection st = Connected →
  deliverRel st (handleInputChange newText st).
Proof.
  intros Hinv Hc.
  destruct (handleInputChange_spec newText st Hinv) as (Htr & _).
  split; try (by right; left);
    try (unfold handleInputChange, setTimeout, setTyping, emit, clearTimeout;
         simpl; repeat (case_match; simpl); done).
  eexists. split; [exact Htr|]. split; [|by right; left].
  case_match; repeat constructor; done.
Qed.

Lemma deliverRel_handleSend st :
  connection st = Connected → deliverRel st (handleSend st).
Proof.
  intros Hc. unfold handleSend.
  destruct (negb (truthy (trim (input st))) || negb (truthy (username st)));
    [apply deliverRel_refl|].
  split; try (by right; left);
    try (unfold_handlers; unfold clearTimeout;
         simpl; repeat (case_match; simpl); done).
  unfold_handlers; unfold clearTimeout. simpl.
  destruct (db st); simpl.
  - eexists. split.
    + destruct (typingTimeoutRef st); simpl;
        rewrite <- !app_assoc; reflexivity.
    + split; [|by right; left]. repeat constructor; done.
  - eexists. split.
    + destruct (typingTimeoutRef st); simpl;
        rewrite <- !app_assoc; reflexivity.
    + split; [|by right; left]. repeat constructor; done.
Qed.

Lemma deliverRel_advance dt st : deliverRel st (advance dt st).
Proof.
  destruct (advance_frame dt st)
    as (Hdb & Hready & Huser & Href & Hdeps & Hconn & Hsub & Hauth & _).
  destruct (timers st) as [|tm tms] eqn:Htm.
  - destruct (advance_idle dt st Htm) as (Htr & Htm' & _).
    apply deliverRel_silent;
      rewrite ?Htm', ?Htm, ?Hdb, ?Hready, ?Huser, ?Href, ?Hdeps, ?Hconn,
        ?Hsub, ?Hauth; done.
  - destruct (advance_trace dt st) as (new & Hnew & HF).
    split; rewrite ?Hdb, ?Hready, ?Huser, ?Href, ?Hdeps, ?Hconn,
        ?Hsub, ?Hauth; try done.
    + exists new. split_and!; [done | | right; right; by rewrite Htm].
      eapply Forall_impl; [exact HF|]. intros [t c]. simpl. by intros ->.
    + right; right. by rewrite Htm.
Qed.

Lemma deliverRel_deliver e st :
  timerInv st → deliverRel st (deliver e st).
Proof.
  intros Hinv. destruct e; simpl.
  - apply deliverRel_firebaseInit.
  - destruct (authListening st) eqn:Hauth; [|apply deliverRel_refl].
    destruct user as [uid|]; simpl.
    + split; simpl; try done.
      * intros H _. by rewrite Hauth in *.
      * exists []. rewrite app_nil_r. split_and!; [done | constructor |].
        left. constructor.
      * destruct (timers st); [by left | by right; right].
    + split; simpl; try done.
      * exists [(clock st, SignInAnonymously)].
        split_and!; [done | by repeat constructor |].
        left. by repeat constructor.
      * destruct (timers st); [by left | by right; right].
  - destruct (truthy (username st)) eqn:Hu; [apply deliverRel_refl|].
    unfold usernameSubmit. case_match; [|apply deliverRel_refl].
    apply deliverRel_silent; simpl; try done. intros ?; congruence.
  - destruct (truthy (username st) && isConnected st) eqn:E;
      [|apply deliverRel_refl].
    apply andb_true_iff in E as [_ Hc%isConnected_true].
    by apply deliverRel_handleInputChange.
  - destruct (truthy (username st) && isConnected st) eqn:E;
      [|apply deliverRel_refl].
    apply andb_true_iff in E as [_ Hc%isConnected_true].
    by apply deliverRel_handleSend.
  - apply deliverRel_advance.
  - destruct (subscribed st); [|apply deliverRel_refl].
    by apply deliverRel_silent.
  - destruct (subscribed st); [|apply deliverRel_refl].
    by apply deliverRel_silent.
  - destruct (pendingAppends st); [apply deliverRel_refl|].
    unfold addDocSettled. destruct ok; [by apply deliverRel_silent|].
    destruct IS_DUMMY_KEY; by apply deliverRel_silent.
  - by apply deliverRel_silent.
  - unfold onTransport.
    destruct e, (connection st) eqn:Hc;
      try apply deliverRel_refl; apply deliverRel_silent; simpl;
      rewrite ?Hc; done.
  - destruct (authListening st && tokenGiven); [|apply deliverRel_refl].
    split; simpl; try done.
    + exists [(clock st, SignInAnonymously)].
      split_and!; [done | by repeat constructor |].
      left. by repeat constructor.
    + destruct (timers st); [by left | by right; right].
Qed.

Lemma listenerCmds_no_connect st :
  filter (λ tc : N * Cmd, isConnect tc.2 = true) (listenerCmds st) = [].
Proof.
  unfold listenerCmds. repeat case_match; done.
Qed.

Lemma connectCmds_count st :
  length (filter (λ tc : N * Cmd, isConnect tc.2 = true) (connectCmds st)) =
  if connectGuard st then 1 else 0.
Proof. unfold connectCmds. by destruct (connectGuard st). Qed.

Lemma filter_no_connect (new : list (N * Cmd)) :
  Forall (λ tc, isConnect tc.2 = false ∧ tc.2 ≠ Unsubscribe ∧
                ∀ q, tc.2 ≠ OnSnapshot q) new →
  filter (λ tc : N * Cmd, isConnect tc.2 = true) new = [].
Proof.
  induction 1 as [|tc new [Hc _] _ IH]; [done|].
  rewrite filter_cons_False; [done|]. by rewrite Hc.
Qed.

Lemma sessionInv_step e st :
  timerInv st → sessionInv st → sessionInv (step e st).
Proof.
  intros Htinv [Hsub Hdeps Hdb Hauth Hatt Hguard Htr Hbefore Hlisten].
  destruct (deliverRel_deliver e st Htinv)
    as [Rsub Rdeps Rref Rready Ruser Rdb Rconn (new & Rtrace & Rnew & Rcls) Rtm].
  destruct (Rdb Hauth Hdb) as [Hauth1 Hdb1]. clear Rdb.
  unfold step, runEffects.
  set (s1 := deliver e st) in *.
  destruct (firestoreListenerEffect_spec s1) as (Ltrace & Ldeps & Lsub & Lout).
  set (s2 := firestoreListenerEffect s1) in *.
  destruct (socketConnectEffect_spec s2) as (Ctrace & Cref & Cconn & Cout).
  set (s3 := socketConnectEffect s2) in *.
  unfold outsideListener in Lout. unfold outsideConnect in Cout.
  simplify_eq.
  (* the fields of [s2] and [s3] in terms of [s1] *)
  assert (isAuthReady s3 = isAuthReady s1) as Eready by congruence.
  assert (db s3 = db s1) as Edb by congruence.
  assert (authListening s3 = authListening s1) as Eauth by congruence.
  assert (username s3 = username s1) as Euser by congruence.
  assert (timers s3 = timers s1) as Etm by congruence.
  assert (subscribed s3 = subscribed s2) as Esub by congruence.
  assert (listenerDeps s3 = listenerDeps s2) as Edeps by congruence.
  assert (hasConnectedRef s2 = hasConnectedRef st) as Eref2 by congruence.
  assert (connection s2 = connection s1) as Econn2 by congruence.
  assert (isAuthReady s2 = isAuthReady s1) as Eready2 by congruence.
  assert (username s2 = username s1) as Euser2 by congruence.
  assert (subscribed s2 = isAuthReady s1) as Hsub2.
  { rewrite Lsub. case_bool_decide as Hsame.
    - rewrite Rsub, Hsub. rewrite Rdeps in Hsame.
      destruct (isAuthReady s1) eqn:E1.
      + rewrite Hdb1 in Hsame by done. apply Hdeps in Hsame. congruence.
      + destruct (isAuthReady st) eqn:E0; [|done].
        by pose proof (Rready eq_refl).
    - destruct (isAuthReady s1) eqn:E1; [|done]. by rewrite Hdb1. }
  split.
  - congruence.
  - rewrite Esub, Edeps, Hsub2, Ldeps. split.
    + intros E1. by rewrite E1, Hdb1.
    + by intros [= -> _].
  - rewrite Eready, Edb. done.
  - rewrite Eauth, Edb. done.
  - unfold connectAttempts in *. rewrite Ctrace, Ltrace, Rtrace.
    rewrite !filter_app, !length_app, listenerCmds_no_connect,
      (filter_no_connect new Rnew), connectCmds_count, Hatt, Cref, Eref2.
    simpl. unfold connectGuard. rewrite Eref2.
    destruct (hasConnectedRef st); simpl; [rewrite andb_false_r|];
      simpl; [lia|]. rewrite andb_true_r. by case_match.
  - rewrite Cref, Eref2, Eready, Euser. unfold connectGuard.
    rewrite Eready2, Euser2.
    destruct (hasConnectedRef st) eqn:E0; simpl.
    + intros _. destruct (Hguard eq_refl) as [Hg1 Hg2].
      split; [by apply Rready|]. by rewrite Ruser.
    + by intros [[? ?]%andb_true_iff _]%andb_true_iff.
  - rewrite Cconn, Cref, Eref2, Econn2.
    destruct (connectGuard s2); [by rewrite orb_true_r|].
    rewrite orb_false_r. intros Hne. apply Htr. by rewrite <- Rconn.
  - rewrite Eready, Etm. intros Hnot.
    assert (isAuthReady st = false) as Hnot0.
    { destruct (isAuthReady st) eqn:E0; [|done]. rewrite Rready in Hnot; done. }
    destruct (Hbefore Hnot0) as [HFa Htm0].
    assert (connection st = Unstarted) as Hun.
    { destruct (decide (connection st = Unstarted)) as [|Hne]; [done|].
      apply Htr, Hguard in Hne as [? _]. congruence. }
    assert (connectCmds s2 = []) as Hcc.
    { unfold connectCmds, connectGuard. by rewrite Eready2, Hnot. }
    assert (listenerCmds s1 = []) as Hlc.
    { unfold listenerCmds. rewrite Rsub, Hsub, Hnot0, Hnot. simpl.
      by destruct (bool_decide (listenerDeps s1 = Some (false, db s1))). }
    rewrite Ctrace, Ltrace, Rtrace, Hcc, Hlc, !app_nil_r. split.
    + apply Forall_app. split; [done|].
      destruct Rcls as [?|[?|?]]; [done|congruence|done].
    + destruct Rtm as [?|[?|?]]; [done|congruence|done].
  - rewrite Esub, Ctrace, Ltrace, Rtrace. intros Hs2.
    unfold listenerCmds.
    destruct (bool_decide (listenerDeps s1 = Some (isAuthReady s1, db s1)))
      eqn:Hsame.
    + rewrite Lsub, Rsub in Hs2. destruct (Hlisten Hs2) as [t Ht].
      exists t. rewrite !elem_of_app. by left; left; left.
    + rewrite Lsub in Hs2. rewrite Hs2.
      exists (clock s1). rewrite !elem_of_app, list_elem_of_singleton.
      left; right; right. done.
Qed.

Lemma reachable_sessionInv st : reachable st → sessionInv st.
Proof.
  apply reachable_ind; [apply sessionInv_initial|].
  intros e s Hs. apply sessionInv_step. by apply reachable_timerInv.
Qed.

(** *** C4: the connect guard *)

Lemma hasConnectedRef_step e st :
  timerInv st → hasConnectedRef st = true → hasConnectedRef (step e st) = true.
Proof.
  intros Hinv Href. unfold step, runEffects.
  destruct (socketConnectEffect_spec
              (firestoreListenerEffect (deliver e st))) as (_ & -> & _).
  destruct (firestoreListenerEffect_spec (deliver e st)) as (_ & _ & _ & Hout).
  unfold outsideListener in Hout. simplify_eq.
  destruct (deliverRel_deliver e st Hinv) as [_ _ Rref _ _ _ _ _ _].
  assert (hasConnectedRef (firestoreListenerEffect (deliver e st)) = true)
    as -> by congruence.
  done.
Qed.

Lemma hasConnectedRef_run es st :
  timerInv st → hasConnectedRef st = true → hasConnectedRef (run es st) = true.
Proof.
  intros Hinv Href.
  apply (run_invariant (λ s, timerInv s ∧ hasConnectedRef s = true));
    [|done].
  intros e s [? ?]. split; [by apply timerInv_step|].
  by apply hasConnectedRef_step.
Qed.

(** C4. Whatever events a session sees, [connect] is called at most once:
    the number of connection attempts is 1 once [hasConnectedRef] is set
    and 0 before, and after the guard has let [connect(username)] through
    no further sequence of events produces a second call. *)
Theorem connect_at_most_once es :
  let st := run es initial in
  (connectAttempts st ≤ 1)%nat ∧
  connectAttempts st = (if hasConnectedRef st then 1 else 0) ∧
  ∀ es', hasConnectedRef st = true →
         connectAttempts (run es' st) = 1 ∧ connectAttempts st = 1.
Proof.
  intros st.
  assert (reachable st) as Hreach by (by exists es).
  pose proof (inv_attempts st (reachable_sessionInv st Hreach)) as Hatt.
  split_and!; [|done|].
  - rewrite Hatt. by destruct (hasConnectedRef st); lia.
  - intros es' Href.
    pose proof (inv_attempts _
      (reachable_sessionInv _ (reachable_run es' st Hreach))) as Hatt'.
    rewrite Hatt', Hatt, Href.
    by rewrite hasConnectedRef_run by (by try apply reachable_timerInv).
Qed.

(** *** C9: nothing before identity is ready *)

(** C9. In a reachable state in which identity is not ready yet, the only
    calls made so far went to the identity provider: no durable-store
    operation, no [connect], and the transport was never started.  The
    snapshot listener is attached exactly when identity is ready, by an
    [onSnapshot] call, whether or not a username is chosen and the
    transport started; a [connect] call requires in addition a chosen
    username. *)
Theorem operations_gated_on_identity st :
  reachable st →
  (isAuthReady st = false →
     Forall (λ tc, isAuthCmd tc.2 = true) (trace st) ∧
     Forall (λ tc, isDurableOp tc.2 = false ∧ isConnect tc.2 = false)
            (trace st) ∧
     connectAttempts st = 0 ∧ connection st = Unstarted) ∧
  subscribed st = isAuthReady st ∧
  (isAuthReady st = true →
     (∃ t, (t, OnSnapshot chatQuery) ∈ trace st) ∧
     (truthy (username st) = false →
        connectAttempts st = 0 ∧ connection st = Unstarted)) ∧
  (0 < connectAttempts st →
     isAuthReady st = true ∧ truthy (username st) = true).
Proof.
  intros Hreach.
  destruct (reachable_sessionInv st Hreach)
    as [Hsub Hdeps Hdb Hauth Hatt Hguard Htr Hbefore Hlisten].
  assert (hasConnectedRef st = false →
          connectAttempts st = 0 ∧ connection st = Unstarted) as Hnone.
  { intros Href. rewrite Hatt, Href. split; [done|].
    destruct (decide (connection st = Unstarted)) as [|Hne]; [done|].
    apply Htr in Hne. congruence. }
  split_and!.
  - intros Hnot. destruct (Hbefore Hnot) as [HF _].
    assert (hasConnectedRef st = false) as Href.
    { destruct (hasConnectedRef st) eqn:E; [|done].
      destruct (Hguard eq_refl). congruence. }
    destruct (Hnone Href). split_and!; try done.
    eapply Forall_impl; [exact HF|]. intros [t c]. simpl.
    by destruct c.
  - done.
  - intros Hready. split; [apply Hlisten; congruence|].
    intros Hu. apply Hnone.
    destruct (hasConnectedRef st) eqn:E; [|done].
    destruct (Hguard eq_refl). congruence.
  - intros Hpos. apply Hguard.
    destruct (hasConnectedRef st); [done|]. lia.
Qed.

(** *** C7: blank sends *)

(** C7. A send whose input is empty after trimming (white space only, for
    instance) does nothing at all: [handleSend] returns the state it was
    given, so nothing is emitted to the transport, nothing is written to
    the store, no "stop typing" is sent, the pending timer is kept and
    the input is left as it is. *)
Theorem blank_send_is_noop st :
  trim (input st) = "" →
  handleSend st = st ∧ deliver ESubmit st = st ∧
  trace (handleSend st) = trace st ∧ timers (handleSend st) = timers st.
Proof.
  intros Hblank.
  assert (handleSend st = st) as Hsend.
  { unfold handleSend. by rewrite Hblank. }
  split_and!; try (by rewrite Hsend).
  simpl. rewrite Hsend. by destruct (truthy (username st) && isConnected st).
Qed.

(** *** C1: the merged view *)

Lemma isAuthReady_step e st :
  timerInv st → isAuthReady st = true → isAuthReady (step e st) = true.
Proof.
  intros Hinv Hready. unfold step, runEffects.
  destruct (socketConnectEffect_spec
              (firestoreListenerEffect (deliver e st))) as (_ & _ & _ & Hc).
  destruct (firestoreListenerEffect_spec (deliver e st)) as (_ & _ & _ & Hout).
  unfold outsideListener in Hout. unfold outsideConnect in Hc. simplify_eq.
  destruct (deliverRel_deliver e st Hinv) as [_ _ _ Rready _ _ _ _ _].
  specialize (Rready Hready). congruence.
Qed.

Lemma step_snapshot collection st :
  subscribed st = true →
  persistentMessages (step (ESnapshot collection) st) = durableView collection ∧
  liveMessages (step (ESnapshot collection) st) = liveMessages st.
Proof.
  intros Hsub. unfold step.
  destruct (runEffects_view (deliver (ESnapshot collection) st)) as [-> ->].
  simpl. by rewrite Hsub.
Qed.

Lemma step_liveMessage m st :
  persistentMessages (step (ELiveMessage m) st) = persistentMessages st ∧
  liveMessages (step (ELiveMessage m) st) = liveMessages st ++ [m].
Proof.
  unfold step.
  by destruct (runEffects_view (deliver (ELiveMessage m) st)) as [-> ->].
Qed.



(** *** C5: snapshots *)

Global Instance newerFirst_dec : RelDecision newerFirst.
Proof. intros d1 d2. unfold newerFirst. apply _. Defined.

Global Instance newerFirst_trans : Transitive newerFirst.
Proof. intros d1 d2 d3 H12 H23. unfold newerFirst in *. by etrans. Qed.

Global Instance newerFirst_total : Total newerFirst.
Proof. intros d1 d2. unfold newerFirst. apply total, _. Qed.






(** *** Console output is write-only *)

Lemma consoleBlind_apply f st1 st2 :
  consoleBlind f → noConsole st1 = noConsole st2 →
  noConsole (f st1) = noConsole (f st2).
Proof. intros Hf H. by rewrite (Hf st1), (Hf st2), H. Qed.

Lemma consoleBlind_compose f g :
  consoleBlind f → consoleBlind g → consoleBlind (λ st, g (f st)).
Proof. intros Hf Hg st. apply consoleBlind_apply; [done|]. apply Hf. Qed.

Ltac console_blind :=
  intros st; unfold noConsole; simpl;
  repeat (case_match; simpl; try done); done.

Lemma consoleBlind_firebaseInitEffect initOk rnd :
  consoleBlind (firebaseInitEffect initOk rnd).
Proof. unfold firebaseInitEffect. unfold_handlers. console_blind. Qed.

Lemma consoleBlind_authStateCallback user :
  consoleBlind (authStateCallback user).
Proof. unfold_handlers. console_blind. Qed.

Lemma consoleBlind_usernameSubmit value : consoleBlind (usernameSubmit value).
Proof. unfold_handlers. console_blind. Qed.

Lemma consoleBlind_handleInputChange newText :
  consoleBlind (handleInputChange newText).
Proof.
  intros st.
  unfold handleInputChange, noConsole, setTimeout, clearTimeout, setTyping,
    emit. simpl.
  destruct (bool_decide (0 < String.length newText)
            && noTimerHandle (typingTimeoutRef st)); simpl;
    destruct (typingTimeoutRef st); simpl; done.
Qed.

Lemma consoleBlind_handleSend : consoleBlind handleSend.
Proof.
  intros st. unfold handleSend. cbv zeta.
  change (input (noConsole st)) with (input st).
  change (username (noConsole st)) with (username st).
  destruct (negb (truthy (trim (input st))) || negb (truthy (username st)));
    [done|].
  apply (consoleBlind_apply (set_input "")); [by intros s|].
  apply (consoleBlind_apply (set_typingTimeoutRef None)); [by intros s|].
  set (s1 := setTyping false _). set (s2 := setTyping false _).
  assert (noConsole s1 = noConsole s2) as Hs; [|clearbody s1 s2].
  { subst s1 s2.
    apply (consoleBlind_apply (setTyping false)); [by intros s|].
    set (s1 := sendMessage _ st). set (s2 := sendMessage _ (noConsole st)).
    assert (noConsole s1 = noConsole s2) as Hs by done. clearbody s1 s2.
    change (username s1) with (username (noConsole s1)).
    change (clock s1) with (clock (noConsole s1)).
    change (username s2) with (username (noConsole s2)).
    change (clock s2) with (clock (noConsole s2)).
    rewrite Hs.
    apply (consoleBlind_apply (sendMessageToDb _)); [|done].
    intros s. unfold sendMessageToDb, emit, noConsole.
    change (db (set_console [] s)) with (db s).
    by destruct (db s). }
  change (typingTimeoutRef s1) with (typingTimeoutRef (noConsole s1)).
  change (typingTimeoutRef s2) with (typingTimeoutRef (noConsole s2)).
  rewrite Hs.
  apply (consoleBlind_apply (clearTimeout _)); [|done].
  intros s. unfold clearTimeout, noConsole.
  by destruct (typingTimeoutRef (set_console [] s2)).
Qed.

Lemma consoleBlind_fire due st :
  noConsole (fire st due) = noConsole (fire (noConsole st) due).
Proof.
  revert st. induction due as [|tm due IH]; intros st; [done|].
  unfold fire in *. cbn [foldl]. rewrite IH. symmetry. rewrite IH. done.
Qed.

Lemma consoleBlind_advance dt : consoleBlind (advance dt).
Proof.
  intros st. unfold advance.
  change (timers (noConsole st)) with (timers st).
  change (clock (noConsole st)) with (clock st).
  set (rest := filter (λ tm, dueBy _ tm ≠ true) (timers st)).
  set (due := filter (λ tm, dueBy _ tm = true) (timers st)).
  set (target := (clock st + dt)%N).
  trans (set_clock target (noConsole (fire (set_timers rest st) due)));
    [done|].
  rewrite consoleBlind_fire. symmetry.
  trans (set_clock target
           (noConsole (fire (set_timers rest (noConsole st)) due))); [done|].
  rewrite consoleBlind_fire. done.
Qed.

Lemma consoleBlind_snapshotCallback docs : consoleBlind (snapshotCallback docs).
Proof. unfold_handlers. console_blind. Qed.

Lemma consoleBlind_snapshotErrorCallback : consoleBlind snapshotErrorCallback.
Proof. unfold_handlers. console_blind. Qed.

Lemma consoleBlind_addDocSettled ok : consoleBlind (addDocSettled ok).
Proof. unfold_handlers. console_blind. Qed.

Lemma consoleBlind_onLiveMessage m : consoleBlind (onLiveMessage m).
Proof. unfold_handlers. console_blind. Qed.

Lemma consoleBlind_onTransport e : consoleBlind (onTransport e).
Proof.
  intros st. unfold onTransport, noConsole.
  change (connection (set_console [] st)) with (connection st).
  by destruct e, (connection st).
Qed.

Lemma consoleBlind_firestoreListenerEffect :
  consoleBlind firestoreListenerEffect.
Proof.
  intros st. unfold firestoreListenerEffect, noConsole, emit.
  change (listenerDeps (set_console [] st)) with (listenerDeps st).
  change (isAuthReady (set_console [] st)) with (isAuthReady st).
  change (db (set_console [] st)) with (db st).
  change (subscribed (set_console [] st)) with (subscribed st).
  destruct (bool_decide (listenerDeps st = Some (isAuthReady st, db st)));
    [done|].
  destruct (subscribed st); simpl;
    destruct (isAuthReady st), (db st); simpl; done.
Qed.

Lemma consoleBlind_socketConnectEffect : consoleBlind socketConnectEffect.
Proof.
  intros st. unfold socketConnectEffect, noConsole, connect, emit.
  change (isAuthReady (set_console [] st)) with (isAuthReady st).
  change (username (set_console [] st)) with (username st).
  change (hasConnectedRef (set_console [] st)) with (hasConnectedRef st).
  by destruct (isAuthReady st && truthy (username st)
               && negb (hasConnectedRef st)).
Qed.

Lemma consoleBlind_runEffects : consoleBlind runEffects.
Proof.
  apply (consoleBlind_compose firestoreListenerEffect socketConnectEffect).
  - apply consoleBlind_firestoreListenerEffect.
  - apply consoleBlind_socketConnectEffect.
Qed.

Lemma consoleBlind_deliver e : consoleBlind (deliver e).
Proof.
  intros st. destruct e; simpl.
  - apply consoleBlind_firebaseInitEffect.
  - change (authListening (noConsole st)) with (authListening st).
    destruct (authListening st); [apply consoleBlind_authStateCallback|done].
  - change (username (noConsole st)) with (username st).
    destruct (truthy (username st)); [done|apply consoleBlind_usernameSubmit].
  - change (username (noConsole st)) with (username st).
    change (isConnected (noConsole st)) with (isConnected st).
    destruct (truthy (username st) && isConnected st);
      [apply consoleBlind_handleInputChange|done].
  - change (username (noConsole st)) with (username st).
    change (isConnected (noConsole st)) with (isConnected st).
    destruct (truthy (username st) && isConnected st);
      [apply consoleBlind_handleSend|done].
  - apply consoleBlind_advance.
  - change (subscribed (noConsole st)) with (subscribed st).
    destruct (subscribed st); [apply consoleBlind_snapshotCallback|done].
  - change (subscribed (noConsole st)) with (subscribed st).
    destruct (subscribed st); [apply consoleBlind_snapshotErrorCallback|done].
  - change (pendingAppends (noConsole st)) with (pendingAppends st).
    destruct (pendingAppends st) as [|n]; [done|].
    etrans; [apply consoleBlind_addDocSettled|].
    symmetry. etrans; [apply consoleBlind_addDocSettled|]. done.
  - apply consoleBlind_onLiveMessage.
  - apply consoleBlind_onTransport.
  - change (authListening (noConsole st)) with (authListening st).
    by destruct (authListening st && tokenGiven).
Qed.

Lemma consoleBlind_step e : consoleBlind (step e).
Proof.
  apply (consoleBlind_compose (deliver e) runEffects).
  - apply consoleBlind_deliver.
  - apply consoleBlind_runEffects.
Qed.

Lemma consoleBlind_run es : consoleBlind (run es).
Proof.
  induction es as [|e es IH]; [done|].
  apply (consoleBlind_compose (step e) (run es)); [|done].
  apply consoleBlind_step.
Qed.

Lemma noConsole_allMessages st1 st2 :
  noConsole st1 = noConsole st2 → allMessages st1 = allMessages st2.
Proof.
  intros H.
  change (allMessages (noConsole st1) = allMessages (noConsole st2)).
  by rewrite H.
Qed.

Lemma allMessages_step_settled ok st :
  allMessages (step (EAddDocSettled ok) st) = allMessages st.
Proof.
  unfold allMessages, step.
  destruct (runEffects_view (deliver (EAddDocSettled ok) st)) as [-> ->].
  simpl. destruct (pendingAppends st); [done|].
  unfold addDocSettled. destruct ok; [done|]. by destruct IS_DUMMY_KEY.
Qed.

Lemma noConsole_addDocSettled ok st :
  noConsole (addDocSettled ok st) = noConsole st.
Proof.
  unfold addDocSettled. destruct ok; [done|]. by destruct IS_DUMMY_KEY.
Qed.

Lemma handleSend_view st :
  persistentMessages (handleSend st) = persistentMessages st ∧
  liveMessages (handleSend st) = liveMessages st.
Proof.
  unfold handleSend. cbv zeta.
  destruct (negb (truthy (trim (input st))) || negb (truthy (username st)));
    [done|].
  unfold sendMessageToDb, sendMessage, setTyping, emit. simpl.
  destruct (db st); simpl; destruct (typingTimeoutRef st); done.
Qed.

(** *** C6: a rejected durable write *)

(** C6. When the [addDoc] promise of a send rejects, the [catch] block
    only writes to the console: the state is the one a successful write
    leaves, console aside, so nothing the send did is rolled back and
    nothing is shown to the user; the view is the same, in content and
    order, as after a successful write, now and after every further
    sequence of events, and neither the send nor the settling of its
    write changes the view. *)
Theorem durable_write_failure_swallowed st :
  let failed := step (EAddDocSettled false) st in
  let succeeded := step (EAddDocSettled true) st in
  noConsole failed = noConsole succeeded ∧
  allMessages failed = allMessages succeeded ∧
  allMessages failed = allMessages st ∧
  allMessages (handleSend st) = allMessages st ∧
  ∀ es, noConsole (run es failed) = noConsole (run es succeeded) ∧
        allMessages (run es failed) = allMessages (run es succeeded).
Proof.
  intros failed succeeded.
  assert (noConsole failed = noConsole succeeded) as Hsame.
  { unfold failed, succeeded, step.
    apply (consoleBlind_apply runEffects); [apply consoleBlind_runEffects|].
    cbn [deliver]. destruct (pendingAppends st); [done|].
    by rewrite !noConsole_addDocSettled. }
  split_and!.
  - done.
  - by apply noConsole_allMessages.
  - apply allMessages_step_settled.
  - unfold allMessages. by destruct (handleSend_view st) as [-> ->].
  - intros es.
    assert (noConsole (run es failed) = noConsole (run es succeeded)) as Hrun.
    { by apply (consoleBlind_apply (run es)); [apply consoleBlind_run|]. }
    split; [done|]. by apply noConsole_allMessages.
Qed.

(** *** C8: a failing snapshot subscription *)

(** C8. The error callback of the snapshot listener only writes to the
    console: the durable list (the last good snapshot, or the initial
    empty list) and every other field are as before, the state behaves
    as before under every further sequence of events, and a live message
    arriving after the error is appended to the view as usual. *)
Theorem snapshot_error_keeps_durable_list st :
  noConsole (deliver ESnapshotError st) = noConsole st ∧
  persistentMessages (step ESnapshotError st) = persistentMessages st ∧
  allMessages (step ESnapshotError st) = allMessages st ∧
  (∀ es, noConsole (run es (deliver ESnapshotError st)) =
         noConsole (run es st)) ∧
  (∀ m, allMessages (step (ELiveMessage m) (step ESnapshotError st)) =
        allMessages st ++ [m]).
Proof.
  assert (noConsole (deliver ESnapshotError st) = noConsole st) as Hsame.
  { simpl. by destruct (subscribed st). }
  assert (persistentMessages (step ESnapshotError st) = persistentMessages st ∧
          liveMessages (step ESnapshotError st) = liveMessages st) as [Hp Hl].
  { unfold step.
    destruct (runEffects_view (deliver ESnapshotError st)) as [-> ->].
    simpl. by destruct (subscribed st). }
  split_and!.
  - done.
  - done.
  - unfold allMessages. by rewrite Hp, Hl.
  - intros es. by apply (consoleBlind_apply (run es)); [apply consoleBlind_run|].
  - intros m. unfold allMessages.
    destruct (step_liveMessage m (step ESnapshotError st)) as [-> ->].
    by rewrite Hp, Hl, app_assoc.
Qed.

(** *** C2: bursts of keystrokes *)







Lemma handleSend_spec st :
  timerInv st → truthy (trim (input st)) = true →
  truthy (username st) = true →
  let st' := handleSend st in
  trace st' = trace st ++
    [(clock st, SendMessage (trim (input st)))] ++
    (if db st then [(clock st, AddDoc chatPath (outbound st))] else []) ++
    [(clock st, SetTyping false)] ∧
  timers st' = [] ∧ typingTimeoutRef st' = None ∧
  nextTimerId st' = nextTimerId st ∧ clock st' = clock st ∧
  input st' = "" ∧ username st' = username st ∧
  connection st' = connection st.
Proof.
  intros [Hpos Hinv] Htext Huser. unfold handleSend. cbv zeta.
  rewrite Htext, Huser. cbn [negb orb].
  unfold sendMessageToDb, sendMessage, setTyping, emit, outbound. simpl.
  destruct (db st); simpl.
  - destruct (typingTimeoutRef st) as [h|]; simpl;
      rewrite <- ?app_assoc; simpl; split_and!; try done.
    destruct Hinv as [Hids _].
    destruct (timers st) as [|tm [|tm' tms]]; simplify_eq/=.
    rewrite filter_cons_False; [done|]. naive_solver.
  - destruct (typingTimeoutRef st) as [h|]; simpl;
      rewrite <- ?app_assoc; simpl; split_and!; try done.
    destruct Hinv as [Hids _].
    destruct (timers st) as [|tm [|tm' tms]]; simplify_eq/=.
    rewrite filter_cons_False; [done|]. naive_solver.
Qed.




(** *** C3: display identity *)

Lemma displayKey_identified m s i :
  msg_id m = Some s → s ≠ "" → displayKey m i = KeyId s.
Proof.
  intros Hid Hs. unfold displayKey, truthy. rewrite Hid.
  by rewrite bool_decide_eq_false_2.
Qed.

Lemma displayKey_unidentified m i : ¬ identified m → displayKey m i = KeyIndex i.
Proof.
  intros Hno. unfold displayKey, truthy.
  destruct (msg_id m) as [s|] eqn:Hid; [|done].
  case_bool_decide as Hs; [done|]. destruct Hno. by exists s.
Qed.

Lemma keys_lookup st i :
  keys st !! i = (λ m, displayKey m i) <$> allMessages st !! i.
Proof. unfold keys. by rewrite list_lookup_imap. Qed.

Lemma deliver_liveMessages e st :
  ∃ new, liveMessages (deliver e st) = liveMessages st ++ new.
Proof.
  destruct e; cbn [deliver].
  - exists []. rewrite app_nil_r. unfold firebaseInitEffect. unfold_handlers.
    repeat (case_match; simpl); done.
  - exists []. rewrite app_nil_r. unfold_handlers.
    repeat (case_match; simpl); done.
  - exists []. rewrite app_nil_r. unfold_handlers.
    repeat (case_match; simpl); done.
  - exists []. rewrite app_nil_r. case_match; [|done].
    unfold handleInputChange, setTimeout, setTyping, emit, clearTimeout.
    simpl. repeat (case_match; simpl); done.
  - exists []. rewrite app_nil_r. case_match; [|done].
    by destruct (handleSend_view st) as [_ ->].
  - exists []. rewrite app_nil_r.
    by destruct (advance_frame dt st) as (_ & _ & _ & _ & _ & _ & _ & _ & _ & ->).
  - exists []. rewrite app_nil_r. by case_match.
  - exists []. rewrite app_nil_r. by case_match.
  - exists []. rewrite app_nil_r. unfold_handlers.
    repeat (case_match; simpl); done.
  - by exists [m].
  - exists []. rewrite app_nil_r. unfold_handlers.
    repeat (case_match; simpl); done.
  - exists []. rewrite app_nil_r. by case_match.
Qed.

(** Live messages are only ever appended. *)
Lemma run_liveMessages es st :
  ∃ new, liveMessages (run es st) = liveMessages st ++ new.
Proof.
  revert st. induction es as [|e es IH]; intros st.
  { exists []. by rewrite app_nil_r. }
  rewrite run_cons. destruct (IH (step e st)) as [new2 ->].
  unfold step. destruct (runEffects_view (deliver e st)) as [_ ->].
  destruct (deliver_liveMessages e st) as [new1 ->].
  exists (new1 ++ new2). by rewrite app_assoc.
Qed.

Lemma run_live_only es st :
  Forall liveEvent es →
  persistentMessages (run es st) = persistentMessages st.
Proof.
  intros Hes. revert st. induction Hes as [|e es He _ IH]; intros st; [done|].
  rewrite run_cons, IH. destruct e; try done.
  by destruct (step_liveMessage m st) as [-> _].
Qed.

(** C3, amended. A message with a non-empty id has that id as display
    identity wherever it stands in the view, so its identity cannot
    change while it is in the view, and a live message stays in the view
    under every sequence of events.  A message without id is identified
    by its position: live messages arriving leave the position and
    identity of every message already in the view as they are, while a
    snapshot puts the live message with live index [j] at position
    (length of the snapshot + [j]), which is then its identity. *)
Theorem display_identity_by_id_or_position st :
  (∀ i m s, allMessages st !! i = Some m → msg_id m = Some s → s ≠ "" →
            keys st !! i = Some (KeyId s)) ∧
  (∀ i m, allMessages st !! i = Some m → ¬ identified m →
          keys st !! i = Some (KeyIndex i)) ∧
  (∀ es j m, liveMessages st !! j = Some m →
     liveMessages (run es st) !! j = Some m ∧
     allMessages (run es st) !! livePosition (run es st) j = Some m ∧
     (∀ s, msg_id m = Some s → s ≠ "" → identityStable st es j) ∧
     (¬ identified m →
      keys (run es st) !! livePosition (run es st) j =
        Some (KeyIndex (livePosition (run es st) j)))) ∧
  (∀ es i, Forall liveEvent es → (i < length (keys st))%nat →
     keys (run es st) !! i = keys st !! i) ∧
  (∀ collection j m, subscribed st = true → liveMessages st !! j = Some m →
     ¬ identified m →
     keys (step (ESnapshot collection) st)
       !! livePosition (step (ESnapshot collection) st) j =
       Some (KeyIndex (length (durableView collection) + j))).
Proof.
  assert (∀ s j m, liveMessages s !! j = Some m →
                   allMessages s !! livePosition s j = Some m) as Hpos.
  { intros s j m Hj. unfold allMessages, livePosition.
    rewrite lookup_app_r by lia.
    by replace (length (persistentMessages s) + j -
                length (persistentMessages s))%nat with j by lia. }
  assert (∀ es j m, liveMessages st !! j = Some m →
                    liveMessages (run es st) !! j = Some m) as Hstay.
  { intros es j m Hj. destruct (run_liveMessages es st) as [new ->].
    by apply lookup_app_l_Some. }
  split_and!.
  - intros i m s Hi Hid Hs.
    by rewrite keys_lookup, Hi, <- (displayKey_identified m s i).
  - intros i m Hi Hno.
    by rewrite keys_lookup, Hi, <- (displayKey_unidentified m i).
  - intros es j m Hj. pose proof (Hstay es j m Hj) as Hj'. split_and!.
    + done.
    + by apply Hpos.
    + intros s Hid Hs. unfold identityStable.
      rewrite !keys_lookup, (Hpos _ _ _ Hj), (Hpos _ _ _ Hj'). simpl.
      by rewrite !(displayKey_identified m s).
    + intros Hno. rewrite keys_lookup, (Hpos _ _ _ Hj'). simpl.
      by rewrite displayKey_unidentified.
  - intros es i Hes Hi. unfold keys in Hi. rewrite length_imap in Hi.
    rewrite !keys_lookup. f_equal. unfold allMessages in *.
    rewrite (run_live_only es st Hes).
    destruct (run_liveMessages es st) as [new ->].
    rewrite app_assoc. by rewrite lookup_app_l.
  - intros collection j m Hsub Hj Hno.
    destruct (step_snapshot collection st Hsub) as [Hp Hl].
    assert (liveMessages (step (ESnapshot collection) st) !! j = Some m)
      as Hj' by (by rewrite Hl).
    rewrite keys_lookup, (Hpos _ _ _ Hj'). simpl.
    rewrite displayKey_unidentified by done.
    unfold livePosition. by rewrite Hp.
Qed.

(** ** Further properties of the component *)

(** *** One event, seen from the typing debouncer *)

Lemma deliver_typing_frame e st :
  match e with
  | EInputChange _ | ESubmit | EAdvance _ => False
  | _ => True
  end →
  typingEmissions (trace (deliver e st)) = typingEmissions (trace st) ∧
  timers (deliver e st) = timers st ∧ clock (deliver e st) = clock st.
Proof.
  destruct e; try done; intros _; cbn [deliver];
    unfold firebaseInitEffect, tokenSignInRejected; unfold_handlers;
    repeat (case_match; simpl);
    rewrite ?typingEmissions_app; simpl; rewrite ?app_nil_r; done.
Qed.

Lemma typingStep_runEffects s st :
  typingStep st s → typingStep st (runEffects s).
Proof.
  destruct (runEffects_timing s) as (_ & Htm & _ & Hck).
  pose proof (runEffects_typingEmissions s) as Hem.
  intros [H1 H2 H3 | text h H1 H2 H3 | H1 H2 H3 | dt H1 H2 H3 H4
          | dt tm H0 H0' H1 H2 H3].
  - apply ts_silent; congruence.
  - apply (ts_input _ _ text h); congruence.
  - apply ts_send; congruence.
  - apply (ts_wait _ _ dt); congruence.
  - apply (ts_fire _ _ dt tm); congruence.
Qed.

Lemma typingStep_refl st : typingStep st st.
Proof. by apply ts_silent. Qed.

Lemma typingStep_step e st : timerInv st → typingStep st (step e st).
Proof.
  intros Hinv. unfold step. apply typingStep_runEffects.
  destruct e;
    try (match goal with
         | |- typingStep _ (deliver ?e _) =>
             destruct (deliver_typing_frame e st I) as (? & ? & ?)
         end; by apply ts_silent).
  - (* EInputChange *)
    cbn [deliver]. case_match; [|apply typingStep_refl].
    destruct (handleInputChange_spec newText st Hinv)
      as (Htr & Htm & _ & _ & Hck & _).
    apply (ts_input _ _ newText (nextTimerId st)); [|done|done].
    rewrite Htr, typingEmissions_app. f_equal.
    by destruct (bool_decide (newText ≠ "") && bool_decide (timers st = [])).
  - (* ESubmit *)
    cbn [deliver]. case_match; [|apply typingStep_refl].
    destruct (truthy (trim (input st))) eqn:Htext; cycle 1.
    { unfold handleSend. rewrite Htext. apply typingStep_refl. }
    destruct (truthy (username st)) eqn:Huser; cycle 1.
    { unfold handleSend. rewrite Htext, Huser. apply typingStep_refl. }
    destruct (handleSend_spec st Hinv Htext Huser)
      as (Htr & Htm & _ & _ & Hck & _).
    apply ts_send; [|done|done].
    rewrite Htr, !typingEmissions_app. f_equal. by destruct (db st).
  - (* EAdvance *)
    cbn [deliver]. destruct Hinv as [_ Hinv].
    destruct (timers st) as [|tm tms] eqn:Htm.
    + destruct (advance_idle dt st Htm) as (Htr & Htm' & _).
      apply (ts_wait _ _ dt); rewrite ?Htr, ?Htm', ?Htm; try done.
    + assert (tms = []) as ->.
      { destruct (typingTimeoutRef st); [|done].
        destruct Hinv as [Hids _]. by destruct tms. }
      pose proof (advance_one dt st tm Htm) as Hadv. cbv zeta in Hadv.
      unfold dueBy in Hadv.
      destruct (N.leb_spec (timer_due tm) (clock st + dt)) as [Hle|Hlt].
      * destruct Hadv as (Htr & Htm' & _).
        apply (ts_fire _ _ dt tm); try done.
        by rewrite Htr, typingEmissions_app.
      * destruct Hadv as (Htr & Htm' & _).
        apply (ts_wait _ _ dt); rewrite ?Htr, ?Htm', ?Htm; try done.
        by repeat constructor.
Qed.

Lemma starts_emissions tr1 tr2 new :
  typingEmissions tr2 = typingEmissions tr1 ++ new →
  starts tr2 = starts tr1 + length (filter (λ e, e.2 = true) new) ∧
  stops tr2 = stops tr1 + length (filter (λ e, e.2 = false) new).
Proof.
  intros H. unfold starts, stops. by rewrite H, !filter_app, !length_app.
Qed.

Lemma starts_same tr1 tr2 :
  typingEmissions tr2 = typingEmissions tr1 →
  starts tr2 = starts tr1 ∧ stops tr2 = stops tr1.
Proof. intros H. unfold starts, stops. by rewrite H. Qed.

Lemma timerWindow_step e st :
  timerInv st → timerWindow st → timerWindow (step e st).
Proof.
  intros Hinv Hwin. unfold timerWindow in *.
  destruct (typingStep_step e st Hinv)
    as [H1 H2 H3 | text h H1 H2 H3 | H1 H2 H3 | dt H1 H2 H3 H4
        | dt tm H0 H0' H1 H2 H3].
  - by rewrite H2, H3.
  - rewrite H2, H3. repeat constructor; simpl; lia.
  - rewrite H2. constructor.
  - rewrite H2, H4. rewrite Forall_forall in *. intros tm Htm.
    specialize (Hwin tm Htm). specialize (H3 tm Htm). simpl in *. lia.
  - rewrite H2. constructor.
Qed.

Lemma typingBalance_step e st :
  timerInv st → typingBalance st → typingBalance (step e st).
Proof.
  intros Hinv Hbal. unfold typingBalance in *.
  destruct (typingStep_step e st Hinv)
    as [H1 H2 H3 | text h H1 H2 H3 | H1 H2 H3 | dt H1 H2 H3 H4
        | dt tm H0 H0' H1 H2 H3].
  - destruct (starts_same _ _ H1) as [-> ->]. by rewrite H2.
  - destruct (starts_emissions _ _ _ H1) as [-> ->]. rewrite H2.
    rewrite (bool_decide_eq_false_2 ([_] = [])) by done.
    destruct (bool_decide (timers st = [])) eqn:Hnil;
      destruct (bool_decide (text ≠ "")); simpl in *; lia.
  - destruct (starts_emissions _ _ _ H1) as [-> ->]. rewrite H2.
    simpl. destruct (bool_decide (timers st = [])); lia.
  - destruct (starts_same _ _ H1) as [-> ->]. by rewrite H2.
  - destruct (starts_emissions _ _ _ H1) as [-> ->]. rewrite H2.
    simpl. destruct (bool_decide (timers st = [])); lia.
Qed.

Lemma reachable_typing st :
  reachable st → timerInv st ∧ timerWindow st ∧ typingBalance st.
Proof.
  revert st.
  apply (reachable_ind (λ s, timerInv s ∧ timerWindow s ∧ typingBalance s)).
  - split_and!; [apply timerInv_initial | constructor |].
    unfold typingBalance. simpl. done.
  - intros e s _ (Hinv & Hwin & Hbal). split_and!.
    + by apply timerInv_step.
    + by apply timerWindow_step.
    + by apply typingBalance_step.
Qed.

(** *** The inactivity timer *)

(** X1. In every reachable state at most one inactivity timer is pending;
    [typingTimeoutRef] is [null] exactly when none is, and otherwise
    holds the handle of the pending timer, which is truthy; the timer is
    due within the next 2000 ms. *)
Theorem single_inactivity_timer st :
  reachable st →
  (length (timers st) ≤ 1)%nat ∧
  (typingTimeoutRef st = None ↔ timers st = []) ∧
  (∀ h, typingTimeoutRef st = Some h →
        timer_id <$> timers st = [h] ∧ noTimerHandle (Some h) = false) ∧
  timerWindow st.
Proof.
  intros Hreach.
  destruct (reachable_typing st Hreach) as ([Hpos Hinv] & Hwin & _).
  split_and!; [| | |done].
  - destruct (typingTimeoutRef st) as [h|].
    + destruct Hinv as [Hids _].
      apply (f_equal length) in Hids. rewrite length_fmap in Hids.
      simpl in Hids. lia.
    + rewrite Hinv. simpl. lia.
  - destruct (typingTimeoutRef st) as [h|]; [|done].
    destruct Hinv as [Hids _]. split; [done|].
    intros Hnil. by rewrite Hnil in Hids.
  - intros h Hh. rewrite Hh in Hinv. destruct Hinv as [Hids Hh0].
    split; [done|]. simpl. apply bool_decide_eq_false_2. lia.
Qed.

(** X2. Whatever happened before, 2000 ms without an event return the
    debouncer to idle: no timer is left pending, [typingTimeoutRef] is
    [null], and "stop typing" was emitted exactly once if a timer was
    pending and not at all otherwise; "start typing" is not emitted. *)
Theorem quiet_period_returns_to_idle st dt :
  reachable st → (2000 ≤ dt)%N →
  let st' := step (EAdvance dt) st in
  idle st' ∧
  starts (trace st') = starts (trace st) ∧
  stops (trace st') =
    stops (trace st) + (if bool_decide (timers st = []) then 0 else 1).
Proof.
  intros Hreach Hdt st'.
  destruct (reachable_typing st Hreach) as (Hinv & Hwin & _).
  assert (timerInv st') as Hinv' by (by apply timerInv_step).
  assert (timers st' = [] →
          idle st') as Hidle.
  { intros Hnil. destruct Hinv' as [Hpos Hinv'].
    split_and!; [|done|done].
    destruct (typingTimeoutRef st') as [h|]; [|done].
    destruct Hinv' as [Hids _]. by rewrite Hnil in Hids. }
  destruct (typingStep_step (EAdvance dt) st Hinv)
    as [H1 H2 H3 | text h H1 H2 H3 | H1 H2 H3 | dt' H1 H2 H3 H4
        | dt' tm H0 H0' H1 H2 H3];
    fold st' in H1, H2, H3.
  - (* no clock change: only when dt = 0 *)
    assert (clock st' = (clock st + dt)%N) as Hck.
    { unfold st', step.
      destruct (runEffects_timing (deliver (EAdvance dt) st)) as (_ & _ & _ & ->).
      done. }
    lia.
  - assert (clock st' = (clock st + dt)%N) as Hck.
    { unfold st', step.
      destruct (runEffects_timing (deliver (EAdvance dt) st)) as (_ & _ & _ & ->).
      done. }
    lia.
  - assert (clock st' = (clock st + dt)%N) as Hck.
    { unfold st', step.
      destruct (runEffects_timing (deliver (EAdvance dt) st)) as (_ & _ & _ & ->).
      done. }
    lia.
  - fold st' in H4.
    assert (clock st' = (clock st + dt)%N) as Hck.
    { unfold st', step.
      destruct (runEffects_timing (deliver (EAdvance dt) st)) as (_ & _ & _ & ->).
      done. }
    assert (dt' = dt) as -> by lia.
    assert (timers st = []) as Hnil.
    { unfold timerWindow in Hwin. destruct (timers st) as [|tm tms]; [done|].
      apply Forall_cons in H3 as [H3 _]. apply Forall_cons in Hwin as [Hw _].
      simpl in *. lia. }
    destruct (starts_same _ _ H1) as [-> ->].
    rewrite Hnil in *. split_and!; [by apply Hidle | done | simpl; lia].
  - destruct (starts_emissions _ _ _ H1) as [-> ->].
    rewrite H0. split_and!; [by apply Hidle | simpl; lia | simpl; lia].
Qed.

Lemma startsSeparated_app prev l1 l2 :
  startsSeparated prev (l1 ++ l2) =
  startsSeparated prev l1 && startsSeparated (endsOpen prev l1) l2.
Proof.
  revert prev. induction l1 as [|[t flag] l1 IH]; intros prev; [done|].
  simpl. destruct flag; rewrite IH; [|done]. by rewrite andb_assoc.
Qed.

Lemma endsOpen_snoc prev l t flag : endsOpen prev (l ++ [(t, flag)]) = flag.
Proof.
  revert prev. induction l as [|[t' flag'] l IH]; intros prev; [done|].
  simpl. apply IH.
Qed.

Lemma typingOrder_step st st' :
  typingStep st st' → typingOrder st → typingOrder st'.
Proof.
  intros Hstep [Hsep Hopen]. unfold typingOrder.
  destruct Hstep as [H1 H2 H3 | text h H1 H2 H3 | H1 H2 H3 | dt H1 H2 H3 H4
                    | dt tm H0 H5 H1 H2 H4]; rewrite H1.
  - by rewrite H2.
  - rewrite H2. split; [|done].
    destruct (bool_decide (text ≠ "") && bool_decide (timers st = []))
      eqn:Hcond; [|by rewrite app_nil_r].
    apply andb_true_iff in Hcond as [_ Hidle%bool_decide_eq_true].
    rewrite startsSeparated_app, Hsep. simpl.
    destruct (endsOpen false (typingEmissions (trace st))); [|done].
    by destruct (Hopen eq_refl).
  - rewrite startsSeparated_app, Hsep, endsOpen_snoc. done.
  - by rewrite H2.
  - rewrite startsSeparated_app, Hsep, endsOpen_snoc. done.
Qed.

Lemma reachable_typingOrder st : reachable st → typingOrder st.
Proof.
  revert st. apply reachable_ind; [done|].
  intros e s Hreach Hord. apply (typingOrder_step s); [|done].
  apply typingStep_step. by apply reachable_timerInv.
Qed.

(** X3. "Start typing" is never sent twice without a "stop typing" in
    between: in the sequence of typing emissions of a reachable state, the
    emission after a "start typing" is a "stop typing", so between any two
    starts there is a stop; the sequence ends in a start only while the
    inactivity timer is pending; and the "start typing" commands sent
    exceed the "stop typing" commands by at most one, and not at all while
    no timer is pending. *)
Theorem no_second_start_before_stop st :
  reachable st →
  (∀ pre t1 t2 flag post,
     typingEmissions (trace st) = pre ++ (t1, true) :: (t2, flag) :: post →
     flag = false) ∧
  (∀ pre t1 mid t2 post,
     typingEmissions (trace st) =
       pre ++ (t1, true) :: mid ++ (t2, true) :: post →
     ∃ t, (t, false) ∈ mid) ∧
  (∀ pre t1, typingEmissions (trace st) = pre ++ [(t1, true)] →
             timers st ≠ []) ∧
  typingBalance st ∧ (starts (trace st) ≤ stops (trace st) + 1)%nat.
Proof.
  intros Hreach. destruct (reachable_typing st Hreach) as (_ & _ & Hbal).
  destruct (reachable_typingOrder st Hreach) as [Hsep Hopen].
  assert (∀ pre t1 t2 flag post,
            typingEmissions (trace st) =
              pre ++ (t1, true) :: (t2, flag) :: post →
            flag = false) as Hnext.
  { intros pre t1 t2 flag post Heq. rewrite Heq in Hsep.
    rewrite startsSeparated_app in Hsep.
    apply andb_true_iff in Hsep as [_ Hsep]. simpl in Hsep.
    apply andb_true_iff in Hsep as [_ Hsep].
    destruct flag; [|done]. simpl in Hsep. done. }
  split_and!; [done| | |done|].
  - intros pre t1 mid t2 post Heq. destruct mid as [|[t flag] mid].
    + by specialize (Hnext pre t1 t2 true post Heq).
    + rewrite <- app_comm_cons in Heq.
      rewrite (Hnext pre t1 t flag _ Heq). exists t. apply elem_of_cons.
      by left.
  - intros pre t1 Heq. apply Hopen. by rewrite Heq, endsOpen_snoc.
  - unfold typingBalance in Hbal.
    destruct (bool_decide (timers st = [])); lia.
Qed.

(** *** Sending *)

Lemma handleSend_blocked st :
  truthy (trim (input st)) = false ∨ truthy (username st) = false →
  handleSend st = st.
Proof.
  intros [H|H]; unfold handleSend; rewrite H; [done|].
  by rewrite orb_true_r.
Qed.

Lemma handleSend_fields st :
  truthy (trim (input st)) = true → truthy (username st) = true →
  input (handleSend st) = "" ∧
  pendingAppends (handleSend st) =
    pendingAppends st + (if db st then 1 else 0) ∧
  connection (handleSend st) = connection st ∧
  username (handleSend st) = username st.
Proof.
  intros Htext Huser. unfold handleSend. cbv zeta.
  rewrite Htext, Huser. cbn [negb orb].
  unfold sendMessageToDb, sendMessage, setTyping, emit. simpl.
  destruct (db st); simpl; destruct (typingTimeoutRef st); simpl;
    split_and!; (done || lia).
Qed.

Lemma truthy_true s : truthy s = true ↔ s ≠ "".
Proof.
  unfold truthy. rewrite negb_true_iff, bool_decide_eq_false. done.
Qed.

Lemma truthy_false s : truthy s = false ↔ s = "".
Proof.
  unfold truthy. rewrite negb_false_iff, bool_decide_eq_true. done.
Qed.

(** X4. A send of non-blank text by a user with a name emits, in this
    order, the message to the transport, the document to the store (only
    if the database handle exists), and "stop typing"; the text sent is
    the input trimmed (non-empty, no white space at either end) and the
    document carries it with the username as sender; the input is
    cleared, the inactivity timer is cancelled, and the view is not
    touched. *)
Theorem effective_send st :
  timerInv st → trim (input st) ≠ "" → username st ≠ "" →
  let text := trim (input st) in
  let st' := handleSend st in
  trace st' = trace st ++
    [(clock st, SendMessage text)] ++
    (if db st
     then [(clock st,
            AddDoc chatPath
              {| msg_id := None; msg_sender := Some (username st);
                 msg_text := Some text;
                 msg_timestamp := Some (toISOString (clock st));
                 msg_system := false; msg_isPrivate := false |})]
     else []) ++
    [(clock st, SetTyping false)] ∧
  trim text = text ∧ startsClean text ∧ endsClean text ∧
  input st' = "" ∧ timers st' = [] ∧ typingTimeoutRef st' = None ∧
  pendingAppends st' = pendingAppends st + (if db st then 1 else 0) ∧
  allMessages st' = allMessages st.
Proof.
  intros Hinv Htext%truthy_true Huser%truthy_true text st'.
  destruct (handleSend_spec st Hinv Htext Huser)
    as (Htr & Htm & Href & _ & _ & Hin & _).
  destruct (handleSend_fields st Htext Huser) as (_ & Hpend & _).
  destruct (handleSend_view st) as [Hp Hl].
  split_and!; try done.
  - apply trim_idemp.
  - apply trim_startsClean.
  - apply trim_endsClean.
  - unfold allMessages, st'. by rewrite Hp, Hl.
Qed.

(** X5. Submitting twice in a row sends once: after [handleSend] a second
    [handleSend] changes nothing, because an effective send clears the
    input and a blocked one leaves the state as it was. *)
Theorem handleSend_idempotent st :
  handleSend (handleSend st) = handleSend st.
Proof.
  destruct (truthy (trim (input st))) eqn:Htext; cycle 1.
  { by rewrite !(handleSend_blocked st) by (by left). }
  destruct (truthy (username st)) eqn:Huser; cycle 1.
  { by rewrite !(handleSend_blocked st) by (by right). }
  destruct (handleSend_fields st Htext Huser) as (Hin & _).
  apply handleSend_blocked. left. by rewrite Hin.
Qed.

(** X6. On the chat interface the send button and [handleSend] agree: the
    button is enabled only when a send is effective, an enabled button's
    submit emits the trimmed input to the transport, and after it the
    button is disabled again; [handleSend] leaves the state unchanged
    exactly when the trimmed input is empty. *)
Theorem send_button_matches_handler st :
  screen st = ChatInterface →
  (sendButtonDisabled st = false →
     isConnected st = true ∧
     (∃ rest, trace (handleSend st) =
                trace st ++ (clock st, SendMessage (trim (input st))) :: rest) ∧
     sendButtonDisabled (handleSend st) = true) ∧
  (handleSend st = st ↔ blank (input st) = true).
Proof.
  unfold screen. destruct (truthy (username st)) eqn:Huser; [|done].
  intros _. split.
  - unfold sendButtonDisabled.
    intros [Htext%negb_false_iff Hconn%negb_false_iff]%orb_false_iff.
    destruct (handleSend_fields st Htext Huser) as (Hin & _).
    split_and!; [done| |by rewrite Hin].
    unfold handleSend. cbv zeta. rewrite Htext, Huser. cbn [negb orb].
    unfold sendMessageToDb, sendMessage, setTyping, emit. simpl.
    destruct (db st); simpl; destruct (typingTimeoutRef st); simpl;
      rewrite <- ?app_assoc; simpl; eauto.
  - rewrite <- trim_empty, <- truthy_false. split.
    + intros Hsame. destruct (truthy (trim (input st))) eqn:Htext; [|done].
      destruct (handleSend_fields st Htext Huser) as (Hin & _).
      rewrite Hsame in Hin. rewrite Hin in Htext. done.
    + intros Htext. apply handleSend_blocked. by left.
Qed.

(** *** The username *)

Lemma deliver_username e st :
  username (deliver e st) = username st ∨
  (truthy (username st) = false ∧
   ∃ value, e = EUsernameSubmit value ∧ truthy (trim value) = true ∧
            username (deliver e st) = trim value).
Proof.
  destruct e; cbn [deliver];
    try (left; unfold firebaseInitEffect, tokenSignInRejected;
         unfold_handlers; repeat (case_match; simpl); done).
  - destruct (truthy (username st)) eqn:Hu; [by left|].
    unfold usernameSubmit.
    destruct (truthy (trim value)) eqn:Hv; [|by left].
    right. split; [done|]. by exists value.
  - left. case_match; [|done].
    unfold handleInputChange, setTimeout, setTyping, emit, clearTimeout.
    simpl. repeat (case_match; simpl); done.
  - left. case_match; [|done].
    destruct (truthy (trim (input st))) eqn:Htext;
      [|by rewrite handleSend_blocked by (by left)].
    destruct (truthy (username st)) eqn:Huser;
      [|by rewrite handleSend_blocked by (by right)].
    by destruct (handleSend_fields st Htext Huser) as (_ & _ & _ & ->).
  - left. by destruct (advance_frame dt st) as (_ & _ & -> & _).
Qed.

Lemma step_username e st :
  username (step e st) = username (deliver e st).
Proof. unfold step. apply runEffects_username. Qed.

Lemma username_step_fixed e st :
  username st ≠ "" → username (step e st) = username st.
Proof.
  intros Hu%truthy_true. rewrite step_username.
  destruct (deliver_username e st) as [->|[Hfalse _]]; [done|congruence].
Qed.

(** The trace of one step: what the handler emitted, then what the
    listener effect and the connect effect emitted. *)
Lemma step_trace e st :
  timerInv st →
  ∃ new,
    trace (step e st) =
      trace st ++ new ++ listenerCmds (deliver e st) ++
      connectCmds (firestoreListenerEffect (deliver e st)) ∧
    Forall (λ tc, isConnect tc.2 = false ∧ tc.2 ≠ Unsubscribe ∧
                  ∀ q, tc.2 ≠ OnSnapshot q) new.
Proof.
  intros Hinv.
  destruct (deliverRel_deliver e st Hinv)
    as [_ _ _ _ _ _ _ (new & Rtrace & Rnew & _) _].
  exists new. split; [|done]. unfold step, runEffects.
  destruct (socketConnectEffect_spec (firestoreListenerEffect (deliver e st)))
    as (-> & _).
  destruct (firestoreListenerEffect_spec (deliver e st)) as (-> & _).
  by rewrite Rtrace, <- !app_assoc.
Qed.

Lemma firestoreListenerEffect_username st :
  username (firestoreListenerEffect st) = username st.
Proof.
  destruct (firestoreListenerEffect_spec st) as (_ & _ & _ & Hout).
  unfold outsideListener in Hout. by simplify_eq.
Qed.

Lemma reachable_username st :
  reachable st →
  trim (username st) = username st ∧
  ∀ t u, (t, Connect u) ∈ trace st → u = username st ∧ u ≠ "".
Proof.
  revert st.
  apply (reachable_ind (λ s,
    trim (username s) = username s ∧
    ∀ t u, (t, Connect u) ∈ trace s → u = username s ∧ u ≠ "")).
  { split; [done|]. intros t u H. by apply elem_of_nil in H. }
  intros e s Hreach [Htrim Hconn].
  pose proof (reachable_timerInv s Hreach) as Hinv.
  split.
  - rewrite step_username.
    destruct (deliver_username e s) as [->|(_ & v & _ & _ & ->)]; [done|].
    apply trim_idemp.
  - intros t u Hin.
    destruct (step_trace e s Hinv) as (new & Htr & Hnew).
    rewrite Htr, !elem_of_app in Hin.
    destruct Hin as [Hin|[Hin|[Hin|Hin]]].
    + destruct (Hconn t u Hin) as [-> Hne]. split; [|done].
      symmetry. by apply username_step_fixed.
    + rewrite Forall_forall in Hnew. by destruct (Hnew _ Hin) as [? _].
    + exfalso.
      by apply (filter_nil_not_elem_of _ _ (t, Connect u)
                  (listenerCmds_no_connect (deliver e s))).
    + unfold connectCmds in Hin.
      destruct (connectGuard _) eqn:Hg; [|by apply elem_of_nil in Hin].
      apply list_elem_of_singleton in Hin. injection Hin as _ ->.
      rewrite firestoreListenerEffect_username. split.
      * by rewrite step_username.
      * unfold connectGuard in Hg.
        apply andb_true_iff in Hg as [[_ Hu]%andb_true_iff _].
        rewrite firestoreListenerEffect_username in Hu.
        by apply truthy_true.
Qed.

(** X7. The username is stored trimmed (no white space at either end);
    once a non-empty username is chosen no sequence of events changes it;
    and every [connect] call made carried the current username, which
    is non-empty. *)
Theorem username_chosen_once st :
  reachable st →
  trim (username st) = username st ∧
  startsClean (username st) ∧ endsClean (username st) ∧
  (∀ es, username st ≠ "" → username (run es st) = username st) ∧
  (∀ t u, (t, Connect u) ∈ trace st → u = username st ∧ u ≠ "").
Proof.
  intros Hreach. destruct (reachable_username st Hreach) as [Htrim Hconn].
  split_and!; [done| | | |done].
  - rewrite <- Htrim. apply trim_startsClean.
  - rewrite <- Htrim. apply trim_endsClean.
  - intros es Hne.
    apply (run_invariant (λ s, username s = username st)); [|done].
    intros e s Hs. rewrite <- Hs. apply username_step_fixed. by rewrite Hs.
Qed.

(** X8. The username prompt accepts exactly the names that are not blank:
    a value of white space only leaves the prompt on screen and the
    username empty; any other value is stored trimmed and the chat
    interface is shown. *)
Theorem username_prompt_submit st value :
  screen st = UsernamePrompt →
  let st' := step (EUsernameSubmit value) st in
  (blank value = true → username st' = "" ∧ screen st' = UsernamePrompt) ∧
  (blank value = false →
     username st' = trim value ∧ username st' ≠ "" ∧
     screen st' = ChatInterface).
Proof.
  intros Hscreen st'.
  assert (truthy (username st) = false) as Hu.
  { unfold screen in Hscreen. by destruct (truthy (username st)). }
  clear Hscreen.
  assert (username st' =
          if truthy (trim value) then trim value else username st) as Hst'.
  { unfold st'. rewrite step_username. cbn [deliver]. rewrite Hu.
    unfold usernameSubmit. by destruct (truthy (trim value)). }
  apply truthy_false in Hu. split.
  - intros Hblank%trim_empty. rewrite Hst', Hblank. simpl.
    split; [done|]. unfold screen. by rewrite Hst', Hblank, Hu.
  - intros Hblank.
    assert (truthy (trim value) = true) as Hv.
    { apply truthy_true. intros H%trim_empty. congruence. }
    rewrite Hst', Hv. split_and!; [done|by apply truthy_true|].
    unfold screen. by rewrite Hst', Hv, Hv.
Qed.

(** *** The snapshot listener *)

Lemma listenerCmds_step e st :
  reachable st →
  listenerCmds (deliver e st) =
    if subscribed st then []
    else if isAuthReady (deliver e st)
         then [(clock (deliver e st), OnSnapshot chatQuery)] else [].
Proof.
  intros Hreach.
  destruct (reachable_sessionInv st Hreach)
    as [Hsub Hdeps Hdb Hauth _ _ _ _ _].
  destruct (deliverRel_deliver e st (reachable_timerInv st Hreach))
    as [Rsub Rdeps _ Rready _ Rdb _ _ _].
  destruct (Rdb Hauth Hdb) as [_ Hdb1].
  unfold listenerCmds. rewrite Rsub, Rdeps.
  destruct (subscribed st) eqn:Hs.
  - assert (isAuthReady (deliver e st) = true) as Hr by (apply Rready; congruence).
    rewrite Hr, (Hdb1 Hr). rewrite (proj1 Hdeps eq_refl).
    by rewrite bool_decide_eq_true_2.
  - destruct (isAuthReady (deliver e st)) eqn:Hr.
    + rewrite (Hdb1 eq_refl). rewrite bool_decide_eq_false_2; [done|].
      intros Hsame. apply Hdeps in Hsame. congruence.
    + simpl. by case_bool_decide.
Qed.

Lemma filter_ops_nil (P : Cmd → bool) (new : list (N * Cmd)) :
  (∀ c, P c = true → isConnect c = true ∨ c = Unsubscribe ∨ ∃ q, c = OnSnapshot q) →
  Forall (λ tc, isConnect tc.2 = false ∧ tc.2 ≠ Unsubscribe ∧
                ∀ q, tc.2 ≠ OnSnapshot q) new →
  filter (λ tc : N * Cmd, P tc.2 = true) new = [].
Proof.
  intros HP. induction 1 as [|tc new (Hc & Hu & Hq) _ IH]; [done|].
  rewrite filter_cons_False; [done|].
  intros [Hcon|[Hun|[q Hsnap]]]%HP; [congruence | done | by apply (Hq q)].
Qed.

Lemma reachable_listener st :
  reachable st →
  snapshotCalls st = (if subscribed st then 1 else 0) ∧
  unsubscribeCalls st = 0 ∧
  ∀ t q, (t, OnSnapshot q) ∈ trace st → q = chatQuery.
Proof.
  revert st.
  apply (reachable_ind (λ s,
    snapshotCalls s = (if subscribed s then 1 else 0) ∧
    unsubscribeCalls s = 0 ∧
    ∀ t q, (t, OnSnapshot q) ∈ trace s → q = chatQuery)).
  { split_and!; [done|done|]. intros t q H. by apply elem_of_nil in H. }
  intros e s Hreach (Hcalls & Hunsub & Hquery).
  pose proof (reachable_timerInv s Hreach) as Hinv.
  destruct (step_trace e s Hinv) as (new & Htr & Hnew).
  pose proof (listenerCmds_step e s Hreach) as Hcmds.
  pose proof (inv_subscribed _ (reachable_sessionInv _ (reachable_step e s Hreach)))
    as Hsub'.
  assert (isAuthReady (step e s) = isAuthReady (deliver e s)) as Hready.
  { unfold step, runEffects.
    destruct (socketConnectEffect_spec (firestoreListenerEffect (deliver e s)))
      as (_ & _ & _ & Hc).
    destruct (firestoreListenerEffect_spec (deliver e s)) as (_ & _ & _ & Hout).
    unfold outsideListener in Hout. unfold outsideConnect in Hc.
    simplify_eq. congruence. }
  assert (isAuthReady s = true → isAuthReady (deliver e s) = true) as Hmono.
  { by destruct (deliverRel_deliver e s Hinv). }
  pose proof (inv_subscribed _ (reachable_sessionInv _ Hreach)) as Hsub.
  assert (∀ P : Cmd → bool,
            (∀ name, P (Connect name) = false) →
            filter (λ tc : N * Cmd, P tc.2 = true)
              (connectCmds (firestoreListenerEffect (deliver e s))) = [])
    as Hconnect.
  { intros P HP. unfold connectCmds.
    destruct (connectGuard (firestoreListenerEffect (deliver e s))); [|done].
    rewrite filter_cons_False; [done|]. simpl. by rewrite HP. }
  split_and!.
  - unfold snapshotCalls in *. rewrite Htr, !filter_app, !length_app, Hcalls.
    rewrite (filter_ops_nil isSnapshotCall new), Hconnect, Hcmds; try done.
    + rewrite Hsub', Hready. destruct (subscribed s) eqn:Hs.
      * rewrite Hmono by congruence. done.
      * by destruct (isAuthReady (deliver e s)).
    + intros c Hc. destruct c; try done. right; right. by eexists.
  - unfold unsubscribeCalls in *. rewrite Htr, !filter_app, !length_app, Hunsub.
    rewrite (filter_ops_nil isUnsubscribe new), Hconnect, Hcmds; try done.
    + by repeat case_match.
    + intros c Hc. destruct c; try done. by right; left.
  - intros t q Hin. rewrite Htr, !elem_of_app in Hin.
    destruct Hin as [Hin|[Hin|[Hin|Hin]]].
    + by apply (Hquery t).
    + rewrite Forall_forall in Hnew. destruct (Hnew _ Hin) as (_ & _ & Hq).
      by destruct (Hq q).
    + rewrite Hcmds in Hin. repeat case_match;
        try (by apply elem_of_nil in Hin).
      apply list_elem_of_singleton in Hin. by injection Hin as _ ->.
    + unfold connectCmds in Hin. case_match; [|by apply elem_of_nil in Hin].
      by apply list_elem_of_singleton in Hin.
Qed.

(** X9. The snapshot listener is attached once and never detached: in
    every reachable state [onSnapshot] was called exactly once if
    identity is ready and not at all otherwise, always with the chat
    query (the global room, newest first, limit 50), and [unsubscribe]
    was never called; a re-render does not re-subscribe. *)
Theorem snapshot_listener_attached_once st :
  reachable st →
  snapshotCalls st = (if isAuthReady st then 1 else 0) ∧
  unsubscribeCalls st = 0 ∧
  (∀ t q, (t, OnSnapshot q) ∈ trace st →
          q = chatQuery ∧ q_limit q = 50 ∧ q_orderByDesc q = "timestamp") ∧
  (∀ es, isAuthReady st = true → snapshotCalls (run es st) = 1).
Proof.
  intros Hreach. destruct (reachable_listener st Hreach) as (Hc & Hu & Hq).
  pose proof (inv_subscribed _ (reachable_sessionInv _ Hreach)) as Hsub.
  split_and!; [by rewrite <- Hsub | done | |].
  - intros t q Hin. by rewrite (Hq t q Hin).
  - intros es Hready.
    destruct (reachable_listener _ (reachable_run es st Hreach)) as (-> & _).
    rewrite (inv_subscribed _
      (reachable_sessionInv _ (reachable_run es st Hreach))).
    assert (isAuthReady (run es st) = true) as ->; [|done].
    apply (run_invariant (λ s, reachable s ∧ isAuthReady s = true));
      [|done].
    intros e s [Hs Hr]. split; [by apply reachable_step|].
    apply isAuthReady_step; [by apply reachable_timerInv|done].
Qed.

(** *** Identity *)

Lemma identityStep_silent st st' :
  isAuthReady st' = isAuthReady st → userId st' = userId st →
  authListening st' = authListening st → db st' = db st →
  trace st' = trace st → identityStep st st'.
Proof.
  intros. apply (is_other _ _ []); try done. by rewrite app_nil_r.
Qed.

Lemma advance_identity dt st :
  isAuthReady (advance dt st) = isAuthReady st ∧
  userId (advance dt st) = userId st ∧
  authListening (advance dt st) = authListening st ∧
  db (advance dt st) = db st.
Proof. split_and!; by apply advance_preserves. Qed.

Lemma handleInputChange_identity text st :
  isAuthReady (handleInputChange text st) = isAuthReady st ∧
  userId (handleInputChange text st) = userId st ∧
  authListening (handleInputChange text st) = authListening st ∧
  db (handleInputChange text st) = db st ∧
  ∃ new, trace (handleInputChange text st) = trace st ++ new ∧
         Forall (λ tc, isAuthCmd tc.2 = false) new.
Proof.
  unfold handleInputChange, setTimeout, setTyping, emit, clearTimeout. simpl.
  destruct (bool_decide (0 < String.length text)
            && noTimerHandle (typingTimeoutRef st)); simpl;
    destruct (typingTimeoutRef st); simpl; split_and!; try done.
  all: first [ by (exists [(clock st, SetTyping true)];
                   split; [done | repeat constructor])
             | by (exists []; rewrite app_nil_r; split; [done | constructor]) ].
Qed.

Lemma handleSend_identity st :
  isAuthReady (handleSend st) = isAuthReady st ∧
  userId (handleSend st) = userId st ∧
  authListening (handleSend st) = authListening st ∧
  db (handleSend st) = db st ∧
  ∃ new, trace (handleSend st) = trace st ++ new ∧
         Forall (λ tc, isAuthCmd tc.2 = false) new.
Proof.
  unfold handleSend. cbv zeta.
  destruct (negb (truthy (trim (input st))) || negb (truthy (username st))).
  { split_and!; try done. exists []. rewrite app_nil_r.
    split; [done | constructor]. }
  unfold sendMessageToDb, sendMessage, setTyping, emit. simpl.
  destruct (db st) eqn:Hdb; simpl; destruct (typingTimeoutRef st); simpl;
    rewrite ?Hdb; split_and!; try done;
    eexists; (split; [rewrite <- !app_assoc; reflexivity
                     | repeat constructor]).
Qed.

Lemma identityStep_deliver e st : identityStep st (deliver e st).
Proof.
  destruct e; cbn [deliver].
  - (* EMount *)
    unfold firebaseInitEffect. destruct initOk; [|by apply identityStep_silent].
    destruct IS_DUMMY_KEY eqn:Hdummy.
    + by apply (is_mount_dummy _ _ rnd).
    + destruct initialAuthToken as [token|] eqn:Htoken;
        [destruct (truthy token) eqn:Ht|].
      * apply (is_mount_real _ _ (SignInWithCustomToken token)); try done.
        { unfold emit. simpl. by rewrite <- app_assoc. }
        right. exists token. split_and!; [done | by apply truthy_true | done].
      * apply (is_mount_real _ _ SignInAnonymously); try done.
        { unfold emit. simpl. by rewrite <- app_assoc. }
        by left.
      * apply (is_mount_real _ _ SignInAnonymously); try done.
        { unfold emit. simpl. by rewrite <- app_assoc. }
        by left.
  - (* EAuthStateChanged *)
    destruct (authListening st) eqn:Hl; [|by apply identityStep_silent].
    destruct user as [uid|].
    + by apply (is_user _ _ uid).
    + by apply is_retry.
  - (* EUsernameSubmit *)
    unfold usernameSubmit. repeat case_match; by apply identityStep_silent.
  - (* EInputChange *)
    case_match; [|by apply identityStep_silent].
    destruct (handleInputChange_identity newText st)
      as (? & ? & ? & ? & new & ? & ?).
    by apply (is_other _ _ new).
  - (* ESubmit *)
    case_match; [|by apply identityStep_silent].
    destruct (handleSend_identity st) as (? & ? & ? & ? & new & ? & ?).
    by apply (is_other _ _ new).
  - (* EAdvance *)
    destruct (advance_identity dt st) as (? & ? & ? & ?).
    destruct (advance_trace dt st) as (new & ? & HF).
    apply (is_other _ _ new); try done.
    eapply Forall_impl; [exact HF|]. intros [t c]. simpl. by intros ->.
  - case_match; by apply identityStep_silent.
  - case_match; by apply identityStep_silent.
  - unfold addDocSettled. repeat case_match; by apply identityStep_silent.
  - by apply identityStep_silent.
  - unfold onTransport. repeat case_match; by apply identityStep_silent.
  - (* ETokenSignInRejected *)
    destruct (authListening st) eqn:Hl; [|by apply identityStep_silent].
    destruct tokenGiven; [|by apply identityStep_silent].
    by apply is_retry.
Qed.

Lemma runEffects_identity st :
  isAuthReady (runEffects st) = isAuthReady st ∧
  userId (runEffects st) = userId st ∧
  authListening (runEffects st) = authListening st ∧
  db (runEffects st) = db st ∧
  ∃ new, trace (runEffects st) = trace st ++ new ∧
         Forall (λ tc, isAuthCmd tc.2 = false) new.
Proof.
  unfold runEffects.
  destruct (socketConnectEffect_spec (firestoreListenerEffect st))
    as (Ctr & _ & _ & Hc).
  destruct (firestoreListenerEffect_spec st) as (Ltr & _ & _ & Hout).
  unfold outsideListener in Hout. unfold outsideConnect in Hc.
  simplify_eq. split_and!; try congruence.
  exists (listenerCmds st ++ connectCmds (firestoreListenerEffect st)).
  split; [by rewrite Ctr, Ltr, app_assoc|].
  apply Forall_app. split.
  - unfold listenerCmds. repeat case_match; repeat constructor.
  - unfold connectCmds. case_match; repeat constructor.
Qed.

Lemma reachable_identity st :
  reachable st →
  (is_Some (userId st) ↔ isAuthReady st = true) ∧
  (authListening st = true → IS_DUMMY_KEY = false) ∧
  (isAuthReady st = true → IS_DUMMY_KEY = false → authListening st = true) ∧
  (IS_DUMMY_KEY = true →
     Forall (λ tc, isAuthCmd tc.2 = false) (trace st) ∧
     isAuthReady st = db st ∧
     (isAuthReady st = true →
      ∃ rnd, userId st = Some ("local-dev-user-" +:+ rnd))).
Proof.
  revert st.
  apply (reachable_ind (λ s,
    (is_Some (userId s) ↔ isAuthReady s = true) ∧
    (authListening s = true → IS_DUMMY_KEY = false) ∧
    (isAuthReady s = true → IS_DUMMY_KEY = false → authListening s = true) ∧
    (IS_DUMMY_KEY = true →
       Forall (λ tc, isAuthCmd tc.2 = false) (trace s) ∧
       isAuthReady s = db s ∧
       (isAuthReady s = true →
        ∃ rnd, userId s = Some ("local-dev-user-" +:+ rnd))))).
  { split_and!; try done. split; [by intros [? ?]|done]. }
  intros e s _ (Hid & Hlisten & Hreal & Hdummy). unfold step.
  destruct (runEffects_identity (deliver e s))
    as (-> & -> & -> & -> & new2 & -> & Hnew2).
  destruct (identityStep_deliver e s)
    as [new H1 H2 H3 H4 H5 H6 | rnd H0 H1 H2 H3 H4 H5
        | c H0 H1 H2 H3 H4 H5 H6 | uid H0 H1 H2 H3 H4 H5
        | H0 H1 H2 H3 H4 H5];
    rewrite H1, H2, H3, H4, H5.
  - split_and!; try done. intros Hd. destruct (Hdummy Hd) as (HF & ? & ?).
    split_and!; try done. rewrite !Forall_app. done.
  - split_and!; try done.
    + intros _ ?. congruence.
    + intros _. split_and!; [|done|by exists rnd].
      rewrite Forall_app. split; [by apply Hdummy|done].
  - split_and!; try done. intros ?. congruence.
  - specialize (Hlisten H0). split_and!; try done. intros ?. congruence.
  - specialize (Hlisten H0). split_and!; try done. intros ?. congruence.
Qed.

(** X10. On dummy keys (local development) the identity provider is never
    called: no observer is attached and no sign-in is attempted, whatever
    the events; identity is ready exactly when the mount succeeded, and
    the user id is then a generated ["local-dev-user-..."] one. *)
Theorem dummy_key_skips_identity_provider st :
  IS_DUMMY_KEY = true → reachable st →
  authListening st = false ∧
  Forall (λ tc, isAuthCmd tc.2 = false) (trace st) ∧
  isAuthReady st = db st ∧
  (isAuthReady st = true →
   ∃ rnd, userId st = Some ("local-dev-user-" +:+ rnd)).
Proof.
  intros Hdummy Hreach.
  destruct (reachable_identity st Hreach) as (_ & Hlisten & _ & Hd).
  destruct (Hd Hdummy) as (? & ? & ?). split_and!; try done.
  destruct (authListening st); [|done]. specialize (Hlisten eq_refl).
  congruence.
Qed.

(** X11. Identity is ready exactly when a user id is known; the database
    handle was then set before, and on real keys readiness comes from
    the attached auth observer only. *)
Theorem ready_means_user_known st :
  reachable st →
  (isAuthReady st = true ↔ is_Some (userId st)) ∧
  (isAuthReady st = true → db st = true) ∧
  (isAuthReady st = true → IS_DUMMY_KEY = false → authListening st = true).
Proof.
  intros Hreach.
  destruct (reachable_identity st Hreach) as (Hid & _ & Hreal & _).
  split_and!; [done| |done].
  apply (inv_db _ (reachable_sessionInv _ Hreach)).
Qed.

(** *** The first thing the transport hears *)

Lemma listenerCmds_no_transport st :
  filter (λ tc : N * Cmd, isTransportCmd tc.2 = true) (listenerCmds st) = [].
Proof.
  unfold listenerCmds. repeat case_match; done.
Qed.

Lemma filter_auth_no_transport (new : list (N * Cmd)) :
  Forall (λ tc, isAuthCmd tc.2 = true) new →
  filter (λ tc : N * Cmd, isTransportCmd tc.2 = true) new = [].
Proof.
  induction 1 as [|[t c] new Hc _ IH]; [done|].
  rewrite filter_cons_False; [done|]. simpl in *. by destruct c.
Qed.

Lemma connectFirst_step e st :
  timerInv st → sessionInv st → connectFirst st → connectFirst (step e st).
Proof.
  intros Htinv Hsess Hcf.
  destruct (deliverRel_deliver e st Htinv)
    as [_ _ Rref _ Ruser _ _ (new & Rtrace & Rnew & Rcls) Rtm].
  unfold step, runEffects.
  set (s1 := deliver e st) in *.
  destruct (firestoreListenerEffect_spec s1) as (Ltrace & _ & _ & Lout).
  set (s2 := firestoreListenerEffect s1) in *.
  destruct (socketConnectEffect_spec s2) as (Ctrace & Cref & _ & Cout).
  set (s3 := socketConnectEffect s2) in *.
  unfold outsideListener in Lout. unfold outsideConnect in Cout.
  simplify_eq.
  assert (username s3 = username s2) as Euser3 by congruence.
  assert (username s2 = username s1) as Euser2 by congruence.
  assert (timers s3 = timers s1) as Etm by congruence.
  assert (hasConnectedRef s2 = hasConnectedRef st) as Eref2 by congruence.
  assert (transportCmds s3 =
          transportCmds st ++
          filter (λ tc : N * Cmd, isTransportCmd tc.2 = true) new ++
          connectCmds s2) as Ecmds.
  { unfold transportCmds. rewrite Ctrace, Ltrace, Rtrace, !filter_app.
    rewrite listenerCmds_no_transport, app_nil_r, <- app_assoc. f_equal.
    f_equal. unfold connectCmds. by destruct (connectGuard s2). }
  unfold connectFirst in *. rewrite Ecmds, Cref, Eref2.
  destruct (hasConnectedRef st) eqn:Href; cbn [orb].
  - destruct Hcf as (t & rest & Hcmds & Hrest).
    destruct (inv_guard _ Hsess Href) as [_ Hu].
    assert (connectCmds s2 = []) as ->.
    { unfold connectCmds, connectGuard. by rewrite Eref2, andb_false_r. }
    exists t, (rest ++ filter (λ tc : N * Cmd, isTransportCmd tc.2 = true) new).
    rewrite Hcmds, app_nil_r, Euser3, Euser2, (Ruser Hu). split; [done|].
    apply Forall_app. split; [done|].
    apply Forall_forall. intros tc Htc.
    apply list_elem_of_filter in Htc as [_ Htc].
    by destruct (proj1 (Forall_forall _ _) Rnew tc Htc).
  - destruct Hcf as [Hcmds Htm].
    assert (connection st = Unstarted) as Hun.
    { destruct (decide (connection st = Unstarted)) as [|Hne]; [done|].
      apply (inv_transport _ Hsess) in Hne. congruence. }
    assert (Forall (λ tc : N * Cmd, isAuthCmd tc.2 = true) new) as Hauth.
    { destruct Rcls as [?|[?|?]]; [done|congruence|done]. }
    assert (timers s1 = []) as Htm1.
    { destruct Rtm as [?|[?|?]]; [done|congruence|done]. }
    rewrite Hcmds, (filter_auth_no_transport new Hauth). simpl.
    unfold connectCmds. destruct (connectGuard s2).
    + exists (clock s2), []. by rewrite Euser3.
    + by rewrite Etm.
Qed.

Lemma reachable_connectFirst st : reachable st → connectFirst st.
Proof.
  intros Hreach.
  cut (timerInv st ∧ sessionInv st ∧ connectFirst st); [tauto|].
  revert st Hreach. apply reachable_ind.
  - split_and!; [apply timerInv_initial|apply sessionInv_initial|done].
  - intros e s _ (Ht & Hs & Hc).
    split_and!;
      [by apply timerInv_step|by apply sessionInv_step
      |by apply connectFirst_step].
Qed.

(** After the effects have run the connect guard is spent. *)
Lemma reachable_guard_spent st : reachable st → connectGuard st = false.
Proof.
  revert st. apply reachable_ind; [done|].
  intros e s _ _. unfold step, runEffects.
  set (s2 := firestoreListenerEffect (deliver e s)).
  destruct (socketConnectEffect_spec s2) as (_ & Cref & _ & Cout).
  unfold outsideConnect in Cout. simplify_eq.
  assert (isAuthReady (socketConnectEffect s2) = isAuthReady s2) as Er
    by congruence.
  assert (username (socketConnectEffect s2) = username s2) as Eu
    by congruence.
  unfold connectGuard at 1. rewrite Cref, Er, Eu.
  destruct (connectGuard s2) eqn:Hg.
  - by rewrite orb_true_r, andb_false_r.
  - by rewrite orb_false_r.
Qed.

(** X14. [connect] is called as soon as identity is ready and a username
    is chosen, in whichever order the two happen, and it is the first
    thing the transport is handed: before it no message and no typing
    notification is sent, no inactivity timer is armed and the chat form
    is disabled; after it the
    transport's command list starts with [connect(username)] for the
    current username and holds no second [connect]. *)
Theorem connect_first_and_at_once st :
  reachable st →
  (hasConnectedRef st = true ↔ isAuthReady st = true ∧ username st ≠ "") ∧
  (hasConnectedRef st = false →
     transportCmds st = [] ∧ timers st = [] ∧ connection st = Unstarted ∧
     chatInputDisabled st = true ∧ sendButtonDisabled st = true) ∧
  (hasConnectedRef st = true →
     ∃ t rest, transportCmds st = (t, Connect (username st)) :: rest ∧
               Forall (λ tc, isConnect tc.2 = false) rest).
Proof.
  intros Hreach.
  pose proof (reachable_sessionInv st Hreach) as Hsess.
  pose proof (reachable_connectFirst st Hreach) as Hcf.
  pose proof (reachable_guard_spent st Hreach) as Hg.
  unfold connectFirst in Hcf. split_and!.
  - split.
    + intros Href. destruct (inv_guard _ Hsess Href) as [? ?%truthy_true].
      done.
    + intros [Hr Hu%truthy_true]. unfold connectGuard in Hg.
      rewrite Hr, Hu in Hg. simpl in Hg. by apply negb_false_iff.
  - intros Href. rewrite Href in Hcf. destruct Hcf as [? ?].
    assert (connection st = Unstarted) as Hun.
    { destruct (decide (connection st = Unstarted)) as [|Hne]; [done|].
      apply (inv_transport _ Hsess) in Hne. congruence. }
    unfold chatInputDisabled, sendButtonDisabled, isConnected.
    rewrite Hun. simpl. by rewrite orb_true_r.
  - intros Href. by rewrite Href in Hcf.
Qed.

(** *** Rendering *)

(** X12. The typing indicator is shown exactly when somebody is typing,
    the local user included, but never lists the local user's own name:
    when only the local user is typing it is shown without any name; and
    the verb is "are" exactly when more than one user is typing, the
    local user counted. *)
Theorem typing_indicator_counts_self users me :
  (typingIndicator users me = None ↔ users = []) ∧
  (∀ u, u ∈ typingNames users me ↔ u ∈ users ∧ u ≠ me) ∧
  (me ∉ typingNames users me) ∧
  (users ≠ [] → Forall (λ u, u = me) users →
     typingIndicator users me =
       Some (" " +:+ typingVerb users +:+ " typing...")) ∧
  (typingVerb users = "are" ↔ (1 < length users)%nat).
Proof.
  split_and!.
  - unfold typingIndicator. destruct users as [|u users]; simpl; [done|].
    split; discriminate.
  - intros u. unfold typingNames. rewrite list_elem_of_filter. tauto.
  - unfold typingNames. rewrite list_elem_of_filter. tauto.
  - intros Hne Hall. unfold typingIndicator.
    rewrite bool_decide_eq_true_2 by (destruct users; simpl; [done|lia]).
    assert (typingNames users me = []) as ->; [|done].
    unfold typingNames. induction Hall as [|u users -> _ IH]; [done|].
    rewrite filter_cons_False by (intros H; by apply H).
    destruct users; [done|]. by apply IH.
  - unfold typingVerb. case_bool_decide; split; (done || lia).
Qed.

(** X13. Whether a message is rendered as a system notice is decided by
    its [system] flag or by its sender being the text "System", and the
    username prompt does not reserve that name: it accepts "System", the
    document [handleSend] then writes to the store satisfies the test,
    and every such document of a snapshot is rendered, under its document
    id, as a system notice. *)
Theorem system_notice_by_sender_name :
  (∀ msg, isSystem msg = true ↔
          msg_system msg = true ∨ msg_sender msg = Some "System") ∧
  (∀ st, screen st = UsernamePrompt →
         username (step (EUsernameSubmit "System") st) = "System") ∧
  (∀ st, username st = "System" → trim (input st) ≠ "" → db st = true →
         ∃ m, (clock st, AddDoc chatPath m) ∈ trace (handleSend st) ∧
              m = outbound st ∧ isSystem m = true) ∧
  (∀ st docs d, d ∈ docs → isSystem (doc_data d) = true →
         ∃ m, m ∈ allMessages (snapshotCallback docs st) ∧
              msg_id m = Some (doc_id d) ∧ isSystem m = true).
Proof.
  split_and!.
  - intros msg. unfold isSystem.
    rewrite orb_true_iff, bool_decide_eq_true. done.
  - intros st Hscreen. rewrite step_username. cbn [deliver].
    unfold screen in Hscreen. by destruct (truthy (username st)).
  - intros st Hu Htext%truthy_true Hdb. exists (outbound st).
    split_and!; [|done|by unfold isSystem, outbound; simpl; rewrite Hu].
    unfold handleSend. cbv zeta. rewrite Htext, Hu. cbn [negb orb truthy].
    unfold sendMessageToDb, sendMessage, setTyping, emit, outbound. simpl.
    rewrite Hdb, Hu. simpl.
    destruct (typingTimeoutRef st); simpl;
      rewrite !elem_of_app, !list_elem_of_singleton; auto.
  - intros st docs d Hd Hsys. exists (withDocId d).
    split_and!; [|done|done].
    unfold allMessages, snapshotCallback. simpl.
    apply elem_of_app. left. rewrite elem_of_reverse.
    apply list_elem_of_fmap. by exists d.
Qed.

End App.

(** ** Concrete sessions *)

(** A session on the hosting page's defaults: real Firebase keys, no
    initial token. *)
Abbreviation demoStep := (step "default-app-id" false None clockString).
Abbreviation demoRun := (run "default-app-id" false None clockString).
Abbreviation online := (demoRun sessionStart initial).

Lemma online_reachable :
  reachable "default-app-id" false None clockString online.
Proof. by exists sessionStart. Qed.

(** *** Instances of the theorems *)



Lemma display_identity_by_id_or_position_witness :
  let st := demoRun [ELiveMessage joinNotice; ELiveMessage liveHello] online in
  liveMessages st !! 1 = Some liveHello ∧
  msg_id liveHello = Some "m7" ∧ "m7" ≠ "" ∧
  identityStable "default-app-id" false None clockString st
    [ESnapshot [doc1; doc2]] 1.
Proof.
  intros st.
  assert (liveMessages st !! 1 = Some liveHello) as Hlive
    by (vm_compute; reflexivity).
  assert ("m7" ≠ "") as Hid by discriminate.
  split_and!; [exact Hlive | reflexivity | exact Hid |].
  destruct (display_identity_by_id_or_position "default-app-id" false None
              clockString st) as (_ & _ & H & _).
  destruct (H [ESnapshot [doc1; doc2]] 1 liveHello Hlive) as (_ & _ & Hst & _).
  exact (Hst "m7" eq_refl Hid).
Defined.

Lemma connect_at_most_once_witness :
  hasConnectedRef (demoRun sessionStart initial) = true ∧
  connectAttempts
    (demoRun [EUsernameSubmit "bob"; EAuthStateChanged (Some "uid-1");
              EMount true "q8w2"; ETransport TransportDown;
              ETransport TransportRetry]
       (demoRun sessionStart initial)) = 1.
Proof.
  assert (hasConnectedRef (demoRun sessionStart initial) = true) as Href
    by (vm_compute; reflexivity).
  split; [exact Href|].
  destruct (connect_at_most_once "default-app-id" false None clockString
              sessionStart) as (_ & _ & H).
  destruct (H [EUsernameSubmit "bob"; EAuthStateChanged (Some "uid-1");
               EMount true "q8w2"; ETransport TransportDown;
               ETransport TransportRetry] Href) as [Hone _].
  exact Hone.
Defined.


Lemma blank_send_is_noop_witness :
  let st := demoRun [EInputChange (" " +:+ encode 160 +:+ encode 12288)]
              online in
  trim (input st) = "" ∧
  handleSend "default-app-id" clockString st = st.
Proof.
  intros st.
  assert (trim (input st) = "") as Hblank by (vm_compute; reflexivity).
  split; [exact Hblank|].
  exact (proj1 (blank_send_is_noop "default-app-id" false None clockString
                  st Hblank)).
Defined.

Lemma operations_gated_on_identity_witness :
  let st := demoRun [EMount true "k3j9x"; EUsernameSubmit "alice"] initial in
  reachable "default-app-id" false None clockString st ∧
  isAuthReady st = false ∧
  Forall (λ tc : N * Cmd, isAuthCmd tc.2 = true) (trace st) ∧
  connectAttempts st = 0 ∧ connection st = Unstarted.
Proof.
  intros st.
  assert (reachable "default-app-id" false None clockString st) as Hreach
    by (by exists [EMount true "k3j9x"; EUsernameSubmit "alice"]).
  assert (isAuthReady st = false) as Hnot by (vm_compute; reflexivity).
  destruct (operations_gated_on_identity "default-app-id" false None
              clockString st Hreach) as (H & _).
  destruct (H Hnot) as (Hauth & _ & Hnone & Hun).
  split_and!; [exact Hreach | exact Hnot | exact Hauth | exact Hnone | exact Hun].
Defined.

Lemma input_change_typing_emissions_witness :
  timerInv online ∧
  trace (handleInputChange "h" online) =
    trace online ++ [(0%N, SetTyping true)].
Proof.
  assert (timerInv online) as Hinv.
  { split; vm_compute; [lia | reflexivity]. }
  split; [exact Hinv|].
  destruct (input_change_typing_emissions "h" online Hinv) as (H & _).
  etrans; [exact H|]. vm_compute. reflexivity.
Defined.

(** *** Where the specification's wording fails *)


(** C3, counterexample. A join notice without id is shown at position 0
    and keyed by it; the first durable snapshot, of one document, moves
    it to position 1, and its key changes with it. *)
Lemma unidentified_live_message_rekeyed :
  let st := demoRun [ELiveMessage joinNotice] online in
  let st' := demoRun [ESnapshot [doc1]] st in
  liveMessages st !! 0 = Some joinNotice ∧
  liveMessages st' !! 0 = Some joinNotice ∧
  keys st !! livePosition st 0 = Some (KeyIndex 0) ∧
  keys st' !! livePosition st' 0 = Some (KeyIndex 1) ∧
  ¬ identityStable "default-app-id" false None clockString st
      [ESnapshot [doc1]] 0.
Proof.
  intros st st'.
  split_and!; try (vm_compute; reflexivity).
  intros Hstable. vm_compute in Hstable. discriminate.
Qed.

(** *** Instances of the further properties *)

(** The user has typed a letter. *)
Abbreviation typing := (demoRun [EInputChange "h"] online).

(** The user has typed a message with white space around it. *)
Abbreviation composing :=
  (demoRun [EInputChange (encode 160 +:+ " hi" +:+ encode 12288 +:+ " ")]
     online).

Lemma typing_reachable :
  reachable "default-app-id" false None clockString typing.
Proof. apply reachable_run, online_reachable. Qed.

Lemma single_inactivity_timer_witness :
  reachable "default-app-id" false None clockString typing ∧
  (length (timers typing) ≤ 1)%nat ∧ timerWindow typing.
Proof.
  pose proof typing_reachable as Hreach.
  destruct (single_inactivity_timer "default-app-id" false None clockString
              typing Hreach) as (Hlen & _ & _ & Hwin).
  split_and!; [exact Hreach | exact Hlen | exact Hwin].
Defined.

Lemma quiet_period_returns_to_idle_witness :
  reachable "default-app-id" false None clockString typing ∧
  (2000 ≤ 2500)%N ∧ idle (demoStep (EAdvance 2500) typing).
Proof.
  pose proof typing_reachable as Hreach.
  assert (2000 ≤ 2500)%N as Hdt by lia.
  split_and!; [exact Hreach | exact Hdt |].
  exact (proj1 (quiet_period_returns_to_idle "default-app-id" false None
                  clockString typing 2500%N Hreach Hdt)).
Defined.

Lemma no_second_start_before_stop_witness :
  reachable "default-app-id" false None clockString typing ∧
  typingEmissions (trace typing) = [] ++ [(0%N, true)] ∧
  timers typing ≠ [].
Proof.
  pose proof typing_reachable as Hreach.
  assert (typingEmissions (trace typing) = [] ++ [(0%N, true)]) as Hem
    by (vm_compute; reflexivity).
  split_and!; [exact Hreach | exact Hem |].
  destruct (no_second_start_before_stop "default-app-id" false None
              clockString typing Hreach) as (_ & _ & H & _).
  exact (H [] 0%N Hem).
Defined.

Lemma effective_send_witness :
  timerInv composing ∧ trim (input composing) ≠ "" ∧
  username composing ≠ "" ∧
  trace (handleSend "default-app-id" clockString composing) =
    trace composing ++
    [(0%N, SendMessage "hi");
     (0%N, AddDoc "/artifacts/default-app-id/public/data/global_chat_messages"
             {| msg_id := None; msg_sender := Some "alice";
                msg_text := Some "hi"; msg_timestamp := Some "0";
                msg_system := false; msg_isPrivate := false |});
     (0%N, SetTyping false)].
Proof.
  assert (timerInv composing) as Hinv.
  { split; vm_compute; [lia | split; [reflexivity | lia]]. }
  assert (trim (input composing) ≠ "") as Htext
    by (vm_compute; discriminate).
  assert (username composing ≠ "") as Huser by (vm_compute; discriminate).
  split_and!; [exact Hinv | exact Htext | exact Huser |].
  destruct (effective_send "default-app-id" clockString composing Hinv Htext
              Huser) as (H & _).
  etrans; [exact H|]. vm_compute. reflexivity.
Defined.

Lemma send_button_matches_handler_witness :
  screen composing = ChatInterface ∧
  sendButtonDisabled composing = false ∧
  sendButtonDisabled (handleSend "default-app-id" clockString composing)
    = true.
Proof.
  assert (screen composing = ChatInterface) as Hscreen
    by (vm_compute; reflexivity).
  assert (sendButtonDisabled composing = false) as Hbutton
    by (vm_compute; reflexivity).
  split_and!; [exact Hscreen | exact Hbutton |].
  destruct (send_button_matches_handler "default-app-id" clockString
              composing Hscreen) as [H _].
  exact (proj2 (proj2 (H Hbutton))).
Defined.

Lemma username_chosen_once_witness :
  reachable "default-app-id" false None clockString online ∧
  username online ≠ "" ∧
  username (demoRun [EUsernameSubmit "bob"; EMount true "q8w2";
                     EInputChange "x"; ESubmit] online) = username online.
Proof.
  assert (username online ≠ "") as Hne by (vm_compute; discriminate).
  split_and!; [exact online_reachable | exact Hne |].
  destruct (username_chosen_once "default-app-id" false None clockString
              online online_reachable) as (_ & _ & _ & H & _).
  exact (H _ Hne).
Defined.

Lemma username_prompt_submit_witness :
  screen initial = UsernamePrompt ∧
  blank (encode 12288 +:+ " ") = true ∧
  screen (demoStep (EUsernameSubmit (encode 12288 +:+ " ")) initial) =
    UsernamePrompt ∧
  blank (encode 160 +:+ "bob") = false ∧
  username (demoStep (EUsernameSubmit (encode 160 +:+ "bob")) initial) =
    "bob".
Proof.
  assert (screen initial = UsernamePrompt) as Hscreen by reflexivity.
  assert (blank (encode 12288 +:+ " ") = true) as Hblank
    by (vm_compute; reflexivity).
  assert (blank (encode 160 +:+ "bob") = false) as Hname
    by (vm_compute; reflexivity).
  split_and!; [exact Hscreen | exact Hblank | | exact Hname |].
  - destruct (username_prompt_submit "default-app-id" false None clockString
                initial (encode 12288 +:+ " ") Hscreen) as [H _].
    exact (proj2 (H Hblank)).
  - destruct (username_prompt_submit "default-app-id" false None clockString
                initial (encode 160 +:+ "bob") Hscreen) as [_ H].
    etrans; [exact (proj1 (H Hname))|]. vm_compute. reflexivity.
Defined.

Lemma snapshot_listener_attached_once_witness :
  reachable "default-app-id" false None clockString online ∧
  isAuthReady online = true ∧
  snapshotCalls
    (demoRun [EAuthStateChanged (Some "uid-1"); EMount true "q8w2";
              ESnapshot [doc1]; ETransport TransportDown] online) = 1.
Proof.
  assert (isAuthReady online = true) as Hready by (vm_compute; reflexivity).
  split_and!; [exact online_reachable | exact Hready |].
  destruct (snapshot_listener_attached_once "default-app-id" false None
              clockString online online_reachable) as (_ & _ & _ & H).
  exact (H _ Hready).
Defined.

(** A local-development session on dummy keys. *)
Abbreviation localDev :=
  (run "default-app-id" true None clockString
     [EMount true "k3j9x"; EAuthStateChanged (Some "uid-1");
      EUsernameSubmit "alice"; ETokenSignInRejected] initial).

Lemma dummy_key_skips_identity_provider_witness :
  true = true ∧
  reachable "default-app-id" true None clockString localDev ∧
  authListening localDev = false ∧
  Forall (λ tc : N * Cmd, isAuthCmd tc.2 = false) (trace localDev).
Proof.
  assert (reachable "default-app-id" true None clockString localDev)
    as Hreach by (by eexists).
  destruct (dummy_key_skips_identity_provider "default-app-id" true None
              clockString localDev eq_refl Hreach) as (Hl & HF & _).
  split_and!; [reflexivity | exact Hreach | exact Hl | exact HF].
Defined.

Lemma ready_means_user_known_witness :
  reachable "default-app-id" false None clockString online ∧
  isAuthReady online = true ∧ is_Some (userId online).
Proof.
  assert (isAuthReady online = true) as Hready by (vm_compute; reflexivity).
  split_and!; [exact online_reachable | exact Hready |].
  destruct (ready_means_user_known "default-app-id" false None clockString
              online online_reachable) as (H & _).
  exact (proj1 H Hready).
Defined.

Lemma typing_indicator_counts_self_witness :
  ["alice"] ≠ [] ∧ Forall (λ u, u = "alice") ["alice"] ∧
  typingIndicator ["alice"] "alice" = Some " is typing...".
Proof.
  assert (["alice"] ≠ @nil string) as Hne by discriminate.
  assert (Forall (λ u, u = "alice") ["alice"]) as Hall
    by (repeat constructor).
  split_and!; [exact Hne | exact Hall |].
  destruct (typing_indicator_counts_self ["alice"] "alice")
    as (_ & _ & _ & H & _).
  etrans; [exact (H Hne Hall)|]. vm_compute. reflexivity.
Defined.

Lemma system_notice_by_sender_name_witness :
  let st := demoRun [EMount true "k3j9x"; EAuthStateChanged (Some "uid-1");
                     EUsernameSubmit "System"; ETransport TransportUp;
                     EInputChange " maintenance at 5 "] initial in
  username st = "System" ∧
  ∃ m, (clock st, AddDoc (chatPath "default-app-id") m) ∈
         trace (handleSend "default-app-id" clockString st) ∧
       m = outbound clockString st ∧ isSystem m = true.
Proof.
  intros st.
  destruct (system_notice_by_sender_name "default-app-id" false None
              clockString) as (_ & _ & Hout & _).
  assert (username st = "System") as Hu by (vm_compute; reflexivity).
  split; [exact Hu|]. apply (Hout st Hu).
  - vm_compute. discriminate.
  - vm_compute. reflexivity.
Defined.

Lemma connect_first_and_at_once_witness :
  (hasConnectedRef typing = true ↔
     isAuthReady typing = true ∧ username typing ≠ "") ∧
  transportCmds typing =
    [(0%N, Connect "alice"); (0%N, SetTyping true)].
Proof.
  destruct (connect_first_and_at_once "default-app-id" false None
              clockString typing typing_reachable) as (Hiff & _ & _).
  split; [exact Hiff|]. vm_compute. reflexivity.
Defined.
